(** * SharePoint bulk ingestion: a shallow embedding

    This development embeds the resumable traversal-and-ingestion pipeline of
    [src/sharepoint_bulk_ingestion] and states its properties:

    - [share_point_handler.py]  : class [SharePointHandler] (checkpoint logs,
      token handling, recursive enumeration, content fetch);
    - [astra_db_handler.py]     : class [AstraDBHandler] (bounded-retry write);
    - [sharepoint_integration.py] : [process_all_sharepoint_files_by_site_name].

    Python objects are mutated in place; here every method is a computation
    in a state-and-exception monad over one [state] record that holds both
    handler objects, the file system with the three log files, the vector
    store, and the ordered trace of external effects.  Calls to [logging] have
    no effect on the state and are left out. *)

From Stdlib Require Import ZArith Lia Ascii.
From stdpp Require Import base option list gmap strings.

Set Default Proof Using "Type".

(** ** Data model *)

(** The dictionary written to the error log by [get_item_content]. *)
Record error_details := ErrorDetails {
  err_site_id : string;
  err_drive_id : string;
  err_item_id : string;
  err_drive_name : string;
  err_path : string
}.

(** One line of a log file.  [mark_item_as_processed] writes [item_id + '\n'],
    [mark_item_as_error] writes [str(item_error_details) + '\n']; IDs hold no
    line break, so a file is the list of its lines.  A printed dictionary is
    kept structured and is never equal to an item ID. *)
Inductive line :=
| IdLine (id : string)
| ErrorLine (d : error_details).

(** The dictionary built by [_extract_item_details].  The key ['extension']
    is absent for folders (and [None] in the dry-run folder); the source reads
    it only behind [not d['is_folder']], so both are [None] here. *)
Module Details.
Record t := Build {
  id : string;
  name : string;
  site_id : string;
  drive_id : string;
  drive_name : string;
  path : string;
  lastModifiedDateTime : option string;
  is_folder : bool;
  extension : option string
}.
End Details.
Abbreviation item_details := Details.t.

(** What the Graph API serves.  An [item] is one entry of a page's ['value'];
    the key ['folder'] is present exactly for folders, and a folder carries
    the answer to the children request for its ID.  A [response] is what
    [requests.get(url)] returns for a children URL, together with the answer
    behind its ['@odata.nextLink'] when that key is present. *)
#[warnings="-register-all"]
Inductive item :=
| Item (item_id : string) (item_name : string)
       (item_lastModified : option string) (folder : option response)
with response :=
| Response (status_code : Z) (value : list item) (nextLink : option response).

Definition item_id_of (it : item) : string :=
  match it with Item i _ _ _ => i end.
Definition item_name_of (it : item) : string :=
  match it with Item _ n _ _ => n end.
Definition item_lastModified_of (it : item) : option string :=
  match it with Item _ _ m _ => m end.
Definition item_folder_of (it : item) : option response :=
  match it with Item _ _ _ f => f end.

(** An entry of the drive listing, with the answer to its root children
    request. *)
Record drive := Drive {
  d_id : string;
  d_name : string;
  d_root : response
}.

(** The metadata dictionary attached to every chunk by the orchestrator. *)
Record metadata := Metadata {
  md_id : string;
  md_name : string;
  md_site_id : string;
  md_path : string;
  md_drive_name : string
}.

(** A langchain [Document]. *)
Record Document := mkDocument {
  page_content : string;
  doc_metadata : metadata
}.

Inductive grant := GrantPassword | GrantClientCredentials.

Record token_response := TokenResponse {
  tr_status : Z;
  tr_access_token : string;
  tr_expires_in : Z
}.

(** Answer to a content download: the status, and what
    [textract.process(...)] followed by [decode('utf-8')] yields on the staged
    bytes ([None] when either raises). *)
Record content_response := ContentResponse {
  cr_status : Z;
  cr_text : option string
}.

(** External effects, in the order they happen. *)
Inductive event :=
| PostToken (g : grant)
| GetSite (site_name : string)
| GetDrives (site : string)
| GetChildren (drive : string) (folder_id : option string)
| GetContent (drive : string) (item : string) (status : Z)
| AddDocuments (chunks : list Document) (ok : bool)
| Sleep (seconds : Z)
| AppendLine (file : string) (l : line)
| RemoveFile (file : string).

(** Python exceptions the modelled code raises. *)
Inductive exn :=
| AuthUserFailed (status : Z)
| AuthAdminFailed (status : Z)
| SiteLookupFailed (status : Z)
| ListDrivesFailed (status : Z)
| ListItemsFailed (folder_id : option string) (status : Z)
| StoreWriteFailed
| TypeError
| ZeroDivisionError.

Module SharePoint.
(** The attributes of a [SharePointHandler] that its methods read or write
    after construction (the credentials only fill in request bodies). *)
Record handler := Handler {
  dry_run : bool;
  token_user : option string;
  token_user_expiry : Z;
  token_admin : option string;
  token_admin_expiry : Z;
  api_call_count : nat;
  retry_delay : Z;
  max_retries : Z;
  processed_items_file : string;
  processed_drives_file : string;
  error_items_file : string;
  white_list_file_extensions : list string
}.
End SharePoint.

Module AstraDB.
Record handler := Handler {
  max_retries : Z;
  retry_delay : Z;
  dry_run : bool
}.
End AstraDB.

(** The environment: every answer may depend on how far the run has come
    (the number of effects so far), so consecutive requests may be answered
    differently.  [clock] is [datetime.datetime.now()] in seconds. *)
Record World := {
  clock : nat → Z;
  token_endpoint : grant → nat → token_response;
  site_endpoint : string → nat → Z * string;
  drives_endpoint : string → nat → Z * list drive;
  content_endpoint : string → string → nat → content_response;
  add_documents : list Document → nat → option (list string);
  text_splitter : string → metadata → list Document
}.

Record state := State {
  sp : SharePoint.handler;
  astra : AstraDB.handler;
  fs : gmap string (list line);
  vstore : list (list Document);
  trace : list event
}.

(** ** The state-and-exception monad *)

Inductive outcome (A : Type) :=
| Ret (a : A) (s : state)
| Raise (e : exn) (s : state)
| Timeout (s : state).
Arguments Ret {A} a s.
Arguments Raise {A} e s.
Arguments Timeout {A} s.

Definition M (A : Type) : Type := state → outcome A.

Definition ret {A} (a : A) : M A := λ s, Ret a s.
Definition raise {A} (e : exn) : M A := λ s, Raise e s.
Definition timeout {A} : M A := λ s, Timeout s.
Definition bind {A B} (c : M A) (k : A → M B) : M B :=
  λ s, match c s with
       | Ret a s' => k a s'
       | Raise e s' => Raise e s'
       | Timeout s' => Timeout s'
       end.

Notation "'let*' x ':=' c 'in' k" := (bind c (λ x, k))
  (at level 10, x name, c at level 100, k at level 200).
Notation "c ';;' k" := (bind c (λ _, k))
  (at level 100, k at level 200, right associativity).

Definition get : M state := λ s, Ret s s.
Definition gets {A} (f : state → A) : M A := λ s, Ret (f s) s.
Definition modify (f : state → state) : M unit := λ s, Ret tt (f s).

Definition final_state {A} (o : outcome A) : state :=
  match o with Ret _ s | Raise _ s | Timeout s => s end.

(** State updates. *)
Definition with_sp (f : SharePoint.handler → SharePoint.handler) (s : state) : state :=
  State (f (sp s)) (astra s) (fs s) (vstore s) (trace s).
Definition with_fs (f : gmap string (list line) → gmap string (list line))
    (s : state) : state :=
  State (sp s) (astra s) (f (fs s)) (vstore s) (trace s).
Definition with_vstore (f : list (list Document) → list (list Document))
    (s : state) : state :=
  State (sp s) (astra s) (fs s) (f (vstore s)) (trace s).
Definition emit (e : event) : M unit :=
  modify (λ s, State (sp s) (astra s) (fs s) (vstore s) (trace s ++ [e])).

Definition bump_api_call_count (h : SharePoint.handler) : SharePoint.handler :=
  SharePoint.Handler (SharePoint.dry_run h)
    (SharePoint.token_user h) (SharePoint.token_user_expiry h)
    (SharePoint.token_admin h) (SharePoint.token_admin_expiry h)
    (S (SharePoint.api_call_count h))
    (SharePoint.retry_delay h) (SharePoint.max_retries h)
    (SharePoint.processed_items_file h) (SharePoint.processed_drives_file h)
    (SharePoint.error_items_file h) (SharePoint.white_list_file_extensions h).

Definition set_token_user (tok : string) (expiry : Z) (h : SharePoint.handler)
    : SharePoint.handler :=
  SharePoint.Handler (SharePoint.dry_run h)
    (Some tok) expiry
    (SharePoint.token_admin h) (SharePoint.token_admin_expiry h)
    (SharePoint.api_call_count h)
    (SharePoint.retry_delay h) (SharePoint.max_retries h)
    (SharePoint.processed_items_file h) (SharePoint.processed_drives_file h)
    (SharePoint.error_items_file h) (SharePoint.white_list_file_extensions h).

Definition set_token_admin (tok : string) (expiry : Z) (h : SharePoint.handler)
    : SharePoint.handler :=
  SharePoint.Handler (SharePoint.dry_run h)
    (SharePoint.token_user h) (SharePoint.token_user_expiry h)
    (Some tok) expiry
    (SharePoint.api_call_count h)
    (SharePoint.retry_delay h) (SharePoint.max_retries h)
    (SharePoint.processed_items_file h) (SharePoint.processed_drives_file h)
    (SharePoint.error_items_file h) (SharePoint.white_list_file_extensions h).

(** [datetime.datetime.min], in seconds relative to the epoch of [clock]. *)
Definition datetime_min : Z := (-62135596800)%Z.

(** [SharePointHandler.__init__] with the default file names. *)
Definition SharePointHandler_init (dry : bool) : SharePoint.handler :=
  SharePoint.Handler dry None datetime_min None datetime_min 0 10%Z 3%Z
    ".tmp_processed_items" ".tmp_processed_drives" ".tmp_error_items"
    [".csv"; ".doc"; ".docx"; ".eml"; ".epub"; ".json"; ".html"; ".msg"; ".odt";
     ".ogg"; ".pdf"; ".pptx"; ".ps"; ".rtf"; ".tiff"; ".txt"; ".xlsx"; ".xls"].

(** [AstraDBHandler.__init__] with its default [max_retries] and
    [retry_delay]. *)
Definition AstraDBHandler_init (dry : bool) : AstraDB.handler :=
  AstraDB.Handler 3%Z 10%Z dry.

(** ** CheckpointStore: the static methods of [SharePointHandler] *)

(** [mark_item_as_processed(file, item_id)]: [open(file, 'a')] creates a
    missing file. *)
Definition append_line (file : string) (l : line) : M unit :=
  modify (with_fs (λ m, <[file := default [] (m !! file) ++ [l]]> m));;
  emit (AppendLine file l).

(** [f.write(item_id + '\n')]: one line of the log, for an ID that holds no
    line break (see [line]). *)
Definition mark_item_as_processed (file : string) (item_id : string) : M unit :=
  append_line file (IdLine item_id).

Definition line_is (item_id : option string) (l : line) : bool :=
  match item_id, l with
  | Some i, IdLine j => String.eqb i j
  | _, _ => false
  end.

(** [has_been_processed(file, item_id)]: a missing file answers [False];
    [item_id] is [None] at a drive root, which no line equals. *)
Definition log_has (s : state) (file : string) (item_id : option string) : bool :=
  match fs s !! file with
  | Some processed_items => existsb (line_is item_id) processed_items
  | None => false
  end.
Definition has_been_processed (file : string) (item_id : option string) : M bool :=
  gets (λ s, log_has s file item_id).

Definition mark_item_as_error (file : string) (d : error_details) : M unit :=
  append_line file (ErrorLine d).

(** [clear_processed_items_record(file)]: removes the file if it exists. *)
Definition clear_processed_items_record (file : string) : M unit :=
  let* s := get in
  match fs s !! file with
  | Some _ => modify (with_fs (delete file));; emit (RemoveFile file)
  | None => ret tt
  end.

(** ** TokenManager *)

Definition now (w : World) : M Z := gets (λ s, clock w (length (trace s))).

(** [requests.post(auth_url, data=data)] followed by
    [self.api_call_count += 1]. *)
Definition post_token (w : World) (g : grant) : M token_response :=
  let* s := get in
  let response := token_endpoint w g (length (trace s)) in
  emit (PostToken g);;
  modify (with_sp bump_api_call_count);;
  ret response.

Definition init_auth_token_with_username_password (w : World) : M unit :=
  let* s := get in
  if SharePoint.dry_run (sp s) then ret tt
  else
    let* response := post_token w GrantPassword in
    if (tr_status response =? 200)%Z then
      let* t := now w in
      modify (with_sp (set_token_user (tr_access_token response)
                         (t + tr_expires_in response)%Z))
    else raise (AuthUserFailed (tr_status response)).

Definition init_auth_token_app_only (w : World) : M unit :=
  let* s := get in
  if SharePoint.dry_run (sp s) then ret tt
  else
    let* response := post_token w GrantClientCredentials in
    if (tr_status response =? 200)%Z then
      let* t := now w in
      modify (with_sp (set_token_admin (tr_access_token response)
                         (t + tr_expires_in response)%Z))
    else raise (AuthAdminFailed (tr_status response)).

Definition init_auth_token (w : World) : M unit :=
  init_auth_token_app_only w;;
  init_auth_token_with_username_password w.

Definition check_token (w : World) : M unit :=
  let* s := get in
  if SharePoint.dry_run (sp s) then ret tt
  else
    let* t := now w in
    (if (SharePoint.token_user_expiry (sp s) <=? t)%Z
     then init_auth_token_with_username_password w else ret tt);;
    let* s := get in
    let* t := now w in
    if (SharePoint.token_admin_expiry (sp s) <=? t)%Z
    then init_auth_token_app_only w else ret tt.

(** ** Site and drive discovery *)

Definition dry_run_site_id : string :=
  "esynergysol.sharepoint.com,d042ab24-9622-4433-918f-56d48d400b1e,ee651823-c72b-4205-af34-aff0daf9bf5a".

Definition get_site_id_by_site_name (w : World) (site_name : string) : M string :=
  check_token w;;
  let* s := get in
  if SharePoint.dry_run (sp s) then ret dry_run_site_id
  else
    let response := site_endpoint w site_name (length (trace s)) in
    emit (GetSite site_name);;
    modify (with_sp bump_api_call_count);;
    if (response.1 =? 200)%Z then ret response.2
    else raise (SiteLookupFailed response.1).

(** The one drive of the dry-run listing; no request is ever made for it, so
    its root answer is an empty page. *)
Definition dry_run_drive : drive :=
  Drive "b!JKtC0CKWM0SRj1bUjUALHiMYZe4rxwVCrzSv8Nr5v1o70sHOvnnrS5zeBpmo9GBF"
        "SBX - ISO Compliance Records"
        (Response 200 [] None).

Definition get_drives_by_site_id (w : World) (site : string) : M (list drive) :=
  check_token w;;
  let* s := get in
  if SharePoint.dry_run (sp s) then ret [dry_run_drive]
  else
    let response := drives_endpoint w site (length (trace s)) in
    emit (GetDrives site);;
    modify (with_sp bump_api_call_count);;
    if (response.1 =? 200)%Z then ret response.2
    else raise (ListDrivesFailed response.1).

(** ** TreeWalker *)

(** [str.rfind(c)]: the index of the last occurrence of [c], or [-1]. *)
Fixpoint rfind_from (c : ascii) (p : string) (i last : Z) : Z :=
  match p with
  | EmptyString => last
  | String a p' => rfind_from c p' (i + 1)%Z (if Ascii.eqb a c then i else last)
  end.
Definition rfind (c : ascii) (p : string) : Z := rfind_from c p 0%Z (-1)%Z.

(** Whether some character of [p] at an index in [[lo, hi)] differs from the
    dot: the scan of [genericpath._splitext] over leading dots. *)
Fixpoint has_non_dot (p : string) (i lo hi : Z) : bool :=
  match p with
  | EmptyString => false
  | String a p' =>
      ((lo <=? i)%Z && (i <? hi)%Z && negb (Ascii.eqb a "."%char))
      || has_non_dot p' (i + 1)%Z lo hi
  end.

(** [os.path.splitext(p)[1]] (POSIX): the suffix from the last dot, provided
    that dot follows the last ['/'] and is not one of the leading dots of the
    file name; otherwise the empty string. *)
Definition splitext_ext (p : string) : string :=
  let sepIndex := rfind "/"%char p in
  let dotIndex := rfind "."%char p in
  if (sepIndex <? dotIndex)%Z && has_non_dot p 0%Z (sepIndex + 1)%Z dotIndex
  then String.substring (Z.to_nat dotIndex) (String.length p - Z.to_nat dotIndex) p
  else "".

Definition _extract_item_details (it : item)
    (site_id drive_id drive_name path : string) : item_details :=
  let item_path :=
    if String.eqb path "/" then "/" +:+ item_name_of it
    else path +:+ "/" +:+ item_name_of it in
  let is_folder := match item_folder_of it with Some _ => true | None => false end in
  Details.Build (item_id_of it) (item_name_of it) site_id drive_id drive_name
    item_path (item_lastModified_of it) is_folder
    (if is_folder then None else Some (splitext_ext (item_name_of it))).

(** [d['extension'] in white_list] *)
Definition extension_in (white_list : list string) (d : item_details) : bool :=
  match Details.extension d with
  | Some e => existsb (String.eqb e) white_list
  | None => false
  end.

(** The filter [lambda d: not d['is_folder'] and d['extension'] in white_list]
    used by the enumeration cap and by the orchestrator. *)
Definition is_whitelisted_file (white_list : list string) (d : item_details) : bool :=
  negb (Details.is_folder d) && extension_in white_list d.

(** The two entries appended in dry-run mode. *)
Definition dry_run_items (site_id drive_id : string) : list item_details :=
  [ Details.Build "01CAE3RJCO7FOOGHJ5U5B2IA2IZ27HC2U7" "Associate Contractor Forms"
      site_id drive_id "SBX - ISO Compliance Records"
      "/Forms and Templates/Associate Contractor Forms"
      (Some "2023-10-18T14:17:58Z") true None;
    Details.Build "01CAE3RJCCYTIWX7N3SVG3SKHAKG5YR5UG"
      "01. Associate CFSA (Deliv) TEMPLATE. March 2022.docx"
      site_id drive_id "SBX - ISO Compliance Records"
      "/Forms and Templates/Associate Contractor Forms/01. Associate CFSA (Deliv) TEMPLATE. March 2022.docx"
      (Some "2023-10-18T14:18:01Z") false (Some ".docx") ].

(** [for x in l: body] on an accumulator. *)
Fixpoint for_each {A B} (body : A → B → M B) (l : list A) (acc : B) : M B :=
  match l with
  | [] => ret acc
  | x :: l' => let* acc := body x acc in for_each body l' acc
  end.

Section TreeWalker.
Context (w : World) (site_id drive_id drive_name : string) (max_items : Z).

(** [get_items_in_item_recursive] from its first statement to the choice of
    the URL; [page_requests] is the [while url:] loop that follows. *)
Definition enter_folder (item_id : option string) (items_list : list item_details)
    (page_requests : list item_details → M (list item_details))
    : M (list item_details) :=
  let* s := get in
  let* drive_done :=
    has_been_processed (SharePoint.processed_drives_file (sp s)) (Some drive_id) in
  if drive_done then ret items_list
  else
    let* item_done :=
      has_been_processed (SharePoint.processed_items_file (sp s)) item_id in
    if item_done then ret items_list
    else
      check_token w;;
      let* s := get in
      if SharePoint.dry_run (sp s)
      then ret (items_list ++ dry_run_items site_id drive_id)
      else if (0 <? max_items)%Z
              && (max_items <?
                  Z.of_nat (length (List.filter (is_whitelisted_file
                      (SharePoint.white_list_file_extensions (sp s)))
                    items_list)))%Z
      then ret items_list
      else page_requests items_list.

(** The body of [for item in items_data:].  [descend] is the [while url:]
    loop of the recursive call. *)
Definition visit_item
    (descend : option string → string → response → list item_details
               → M (list item_details))
    (path : string) (it : item) (items_list : list item_details)
    : M (list item_details) :=
  let item_details := _extract_item_details it site_id drive_id drive_name path in
  let items_list := items_list ++ [item_details] in
  (* [if item_details['is_folder']:] *)
  match it with
  | Item child_id _ _ (Some children) =>
      let items_list := items_list ++ [item_details] in
      enter_folder (Some child_id) items_list
        (descend (Some child_id) (Details.path item_details) children)
  | Item _ _ _ None => ret items_list
  end.

(** The [while url:] loop of a call for folder [item_id] at [path], started
    on the answer [r] to its current URL. *)
Fixpoint page_requests (item_id : option string) (path : string) (r : response)
    (items_list : list item_details) {struct r} : M (list item_details) :=
  match r with
  | Response status_code value next =>
      emit (GetChildren drive_id item_id);;
      modify (with_sp bump_api_call_count);;
      if (status_code =? 200)%Z then
        let* items_list := for_each (visit_item page_requests path) value items_list in
        match next with
        | Some r' => page_requests item_id path r' items_list
        | None => ret items_list
        end
      else raise (ListItemsFailed item_id status_code)
  end.

(** [get_items_in_item_recursive(site_id, drive_id, item_id, drive_name,
    path, items_list, max_items)]; [listing] is what the API answers to the
    children URL of [item_id] (the drive root when [item_id] is [None]). *)
Definition get_items_in_item_recursive (item_id : option string) (path : string)
    (items_list : option (list item_details)) (listing : response)
    : M (list item_details) :=
  let items_list := match items_list with Some l => l | None => [] end in
  enter_folder item_id items_list (page_requests item_id path listing).
End TreeWalker.

(** ** ContentFetcher *)

Section ContentFetcher.
Context (w : World).

(** The [while retry_count < self.max_retries:] loop of [get_item_content].
    [fuel] bounds the number of iterations the model runs; the loop itself
    ends only through its condition or a [return].  Note the statement
    [retry_count = + 1] of the source: an assignment of [+1]. *)
Fixpoint get_item_content_loop (fuel : nat) (site_id drive_id item_id : string)
    (item_path drive_name : string) (is_retry : bool) (retry_count : Z)
    : M (option string) :=
  match fuel with
  | O => timeout
  | S fuel' =>
      let* s := get in
      if (retry_count <? SharePoint.max_retries (sp s))%Z then
        let response := content_endpoint w drive_id item_id (length (trace s)) in
        emit (GetContent drive_id item_id (cr_status response));;
        modify (with_sp bump_api_call_count);;
        let item_error_details :=
          ErrorDetails site_id drive_id item_id drive_name item_path in
        if (cr_status response =? 200)%Z then
          match cr_text response with
          | Some text => ret (Some text)
          | None =>
              mark_item_as_error (SharePoint.error_items_file (sp s))
                item_error_details;;
              ret None
          end
        else if (cr_status response =? 403)%Z then ret None
        else
          let retry_count := 1%Z in  (* [retry_count = + 1] *)
          (if negb is_retry
           then mark_item_as_error (SharePoint.error_items_file (sp s))
                  item_error_details
           else ret tt);;
          get_item_content_loop fuel' site_id drive_id item_id item_path
            drive_name is_retry retry_count
      else ret None
  end.

(** [get_item_content(site_id, drive_id, item_id, item_name, item_path,
    drive_name, is_retry)]; the bare [return] yields [None]. *)
Definition get_item_content (fuel : nat) (site_id drive_id item_id item_name : string)
    (item_path drive_name : string) (is_retry : bool) : M (option string) :=
  let* s := get in
  let* done := has_been_processed (SharePoint.processed_items_file (sp s))
                 (Some item_id) in
  if done then ret None
  else
    check_token w;;
    let* s := get in
    if SharePoint.dry_run (sp s)
    then ret (Some "This is a simulated content for dry run.")
    else get_item_content_loop fuel site_id drive_id item_id item_path
           drive_name is_retry 0%Z.
End ContentFetcher.

(** ** BatchIngestor *)

Section BatchIngestor.
Context (w : World).

(** [self.vstore.add_documents(chunks)]: on success the batch is in the
    store and the inserted IDs come back; a failure raises. *)
Definition vstore_add_documents (chunks : list Document) : M (option (list string)) :=
  let* s := get in
  match add_documents w chunks (length (trace s)) with
  | Some inserted_ids =>
      modify (with_vstore (λ b, b ++ [chunks]));;
      emit (AddDocuments chunks true);;
      ret (Some inserted_ids)
  | None =>
      emit (AddDocuments chunks false);;
      ret None
  end.

Definition sleep (seconds : Z) : M unit := emit (Sleep seconds).

(** The body of [for attempt in range(self.max_retries):], run for the
    [remaining] values of [attempt] that are left.  When the range is
    exhausted without a [return] the function falls off its end and yields
    [None]. *)
Fixpoint ingest_attempts (remaining : nat) (attempt : Z) (chunks : list Document)
    : M (option (list string)) :=
  match remaining with
  | O => ret None
  | S remaining' =>
      let* r := vstore_add_documents chunks in
      match r with
      | Some inserted_ids => ret (Some inserted_ids)
      | None =>
          let* s := get in
          if (attempt <? AstraDB.max_retries (astra s) - 1)%Z then
            sleep (AstraDB.retry_delay (astra s));;
            ingest_attempts remaining' (attempt + 1)%Z chunks
          else raise StoreWriteFailed
      end
  end.

Definition ingest_chunks_with_embeddings_to_astra_db (chunks : list Document)
    : M (option (list string)) :=
  let* s := get in
  if AstraDB.dry_run (astra s) then ret None
  else ingest_attempts (Z.to_nat (AstraDB.max_retries (astra s))) 0%Z chunks.
End BatchIngestor.

(** ** Orchestrator *)

Definition drive_white_list : list string := ["SBX - Bid Respository"].

(** The local variables of [process_all_sharepoint_files_by_site_name] that
    live across iterations. *)
Module Locals.
Record t := Build {
  inserted_db_document_count : Z;
  inserted_item_count : Z;
  total_processed_items : Z;
  combined_chunks : list Document
}.
End Locals.
Abbreviation counters := Locals.t.

(** [sorted(drives, key=lambda x: x['name'])]: a stable sort by name. *)
Fixpoint insert_by_name (d : drive) (sorted : list drive) : list drive :=
  match sorted with
  | [] => [d]
  | d' :: rest =>
      if String.leb (d_name d) (d_name d') then d :: d' :: rest
      else d' :: insert_by_name d rest
  end.
Definition sorted_by_name (drives : list drive) : list drive :=
  foldr insert_by_name [] drives.

(** [l[:n if n > 0 else len(l)]] *)
Definition take_if_positive {A} (n : Z) (l : list A) : list A :=
  if (0 <? n)%Z then firstn (Z.to_nat n) l else l.

(** [for idx, x in enumerate(l): body] *)
Fixpoint for_enumerate {A B} (body : nat → A → B → M B) (idx : nat) (l : list A)
    (acc : B) : M B :=
  match l with
  | [] => ret acc
  | x :: l' => let* acc := body idx x acc in for_enumerate body (S idx) l' acc
  end.

Section Orchestrator.
Context (w : World) (fuel : nat).
Context (site_id : string) (max_items bulk_item_count : Z).

(** The condition of the flush [if]; Python evaluates the modulo first and
    raises on a zero divisor. *)
Definition flush_due (total_processed_items : Z) (last_item_of_last_drive : bool)
    : M bool :=
  if (bulk_item_count =? 0)%Z then raise ZeroDivisionError
  else ret ((total_processed_items mod bulk_item_count =? 0)%Z
            || last_item_of_last_drive).

(** The statements under [if content:] for one item, from the chunking to
    the mark. *)
Definition ingest_item (d : drive) (last_item_of_last_drive : bool)
    (item : item_details) (content : string) (c : counters) : M counters :=
  let metadata :=
    Metadata (Details.id item) (Details.name item) site_id (Details.path item)
      (Details.drive_name item) in
  let chunks := text_splitter w content metadata in
  let combined_chunks := Locals.combined_chunks c ++ chunks in
  let* due := flush_due (Locals.total_processed_items c) last_item_of_last_drive in
  let* c :=
    if due then
      let* inserted_ids :=
        ingest_chunks_with_embeddings_to_astra_db w combined_chunks in
      match inserted_ids with
      | Some ids =>
          ret (Locals.Build
                 (Locals.inserted_db_document_count c + Z.of_nat (length ids))
                 (Locals.inserted_item_count c + bulk_item_count)
                 (Locals.total_processed_items c) [])
      | None => raise TypeError  (* [len(None)] *)
      end
    else
      ret (Locals.Build (Locals.inserted_db_document_count c)
             (Locals.inserted_item_count c)
             (Locals.total_processed_items c) combined_chunks) in
  let c := Locals.Build (Locals.inserted_db_document_count c)
             (Locals.inserted_item_count c)
             (Locals.total_processed_items c + 1) (Locals.combined_chunks c) in
  let* s := get in
  mark_item_as_processed (SharePoint.processed_items_file (sp s)) (Details.id item);;
  ret c.

(** The body of [for item_idx, item in enumerate(items_to_process):]. *)
Definition process_item (d : drive) (last_drive : bool) (n_items : nat)
    (item_idx : nat) (item : item_details) (c : counters) : M counters :=
  let* content :=
    get_item_content w fuel site_id (d_id d) (Details.id item)
      (Details.name item) (Details.path item) (d_name d) false in
  match content with
  | Some (String a text) =>
      ingest_item d
        ((Z.of_nat item_idx =? Z.of_nat n_items - 1)%Z && last_drive)
        item (String a text) c
  | Some EmptyString | None => ret c
  end.

(** The body of [for drive_idx, drive in enumerate(drives_to_process):]. *)
Definition process_drive (n_drives : nat) (drive_idx : nat) (d : drive)
    (c : counters) : M counters :=
  if existsb (String.eqb (d_name d)) drive_white_list then
    let* items :=
      get_items_in_item_recursive w site_id (d_id d) (d_name d) max_items
        None "/" None (d_root d) in
    let* s := get in
    let items_to_process :=
      List.filter
        (is_whitelisted_file (SharePoint.white_list_file_extensions (sp s)))
        items in
    let items_to_process := take_if_positive max_items items_to_process in
    let* c :=
      for_enumerate
        (process_item d (Z.of_nat drive_idx =? Z.of_nat n_drives - 1)%Z
           (length items_to_process))
        0 items_to_process c in
    let* s := get in
    mark_item_as_processed (SharePoint.processed_drives_file (sp s)) (d_id d);;
    clear_processed_items_record (SharePoint.processed_items_file (sp s));;
    ret c
  else ret c.
End Orchestrator.

Definition process_all_sharepoint_files_by_site_name (w : World) (fuel : nat)
    (site_name : string) (max_drives max_items bulk_item_count : Z) : M counters :=
  init_auth_token_with_username_password w;;
  let* site_id := get_site_id_by_site_name w site_name in
  let* drives := get_drives_by_site_id w site_id in
  let drives_to_process := sorted_by_name (take_if_positive max_drives drives) in
  for_enumerate
    (process_drive w fuel site_id max_items bulk_item_count (length drives_to_process))
    0 drives_to_process (Locals.Build 0 0 0 []).

(** ** Environment variables ([sharepoint_integration.py]) *)

(** [not os.environ.get(var)]: the variable is unset or set to the empty
    string. *)
Definition env_var_missing (environ : gmap string string) (var : string) : bool :=
  match environ !! var with
  | Some (String _ _) => false
  | Some EmptyString | None => true
  end.

(** [get_env_vars(required_env_vars)]: [None] when a variable is missing,
    otherwise the dictionary [{var: os.environ.get(var) for var in ...}]. *)
Definition get_env_vars (environ : gmap string string)
    (required_env_vars : list string) : option (gmap string (option string)) :=
  let missing_env_vars := List.filter (env_var_missing environ) required_env_vars in
  match missing_env_vars with
  | _ :: _ => None
  | [] => Some (list_to_map ((λ var, (var, environ !! var)) <$> required_env_vars))
  end.

(** The list [main] checks when [SECURE] is false. *)
Definition main_required_env_vars : list string :=
  ["AWS_ACCESS_KEY_ID"; "AWS_SECRET_ACCESS_KEY";
   "SHAREPOINT_TENANT_ID"; "SHAREPOINT_CLIENT_ID"; "SHAREPOINT_CLIENT_SECRET";
   "SHAREPOINT_SERVICE_ACCOUNT_NAME"; "SHAREPOINT_SERVICE_ACCOUNT_PASSWORD";
   "SHAREPOINT_SITE_NAME"; "SHAREPOINT_COLLECTION_NAME";
   "ASTRA_DB_API_ENDPOINT"; "ASTRA_DB_APPLICATION_TOKEN"; "ASTRA_DB_KEYSPACE"].

(** The list [initialize_handlers] checks when [secure] is false. *)
Definition handlers_required_env_vars : list string :=
  ["SHAREPOINT_TENANT_ID"; "SHAREPOINT_CLIENT_ID"; "SHAREPOINT_CLIENT_SECRET";
   "SHAREPOINT_SERVICE_ACCOUNT_NAME"; "SHAREPOINT_SERVICE_ACCOUNT_PASSWORD";
   "ASTRA_DB_API_ENDPOINT"; "ASTRA_DB_APPLICATION_TOKEN"].

(** ** BlobStorageHandler ([blob_storage_handler.py]) *)

Module Blob.
Record handler := Handler {
  container_name : string;
  temp_files : list string
}.
End Blob.

(** [BlobStorageHandler.__init__]: [temp_files if temp_files else [...]], so
    [None] and the empty list both give the four default names. *)
Definition BlobStorageHandler_init (container_name : string)
    (temp_files : option (list string)) : Blob.handler :=
  Blob.Handler container_name
    match temp_files with
    | Some (file_name :: rest) => file_name :: rest
    | Some [] | None =>
        [".tmp_processed_items"; ".tmp_processed_drives"; ".tmp_error_items";
         ".tmp_sharepoint_integration.log"]
    end.

(** The local files and the blobs of the container, by name.  The Azure
    client is taken to answer: [download_blob] and [delete_blob] raise on a
    blob that does not exist, [upload_blob(..., overwrite=True)] succeeds. *)
Record storage := Storage {
  local_files : gmap string (list line);
  blobs : gmap string (list line)
}.

Inductive storage_exn :=
| ResourceNotFoundError (blob : string)
| FileNotFoundError (file : string).

(** The body of the loop of [initialize_and_retrieve_temp_files]: the
    download into the local file, or on any exception an empty local file and
    an empty blob. *)
Definition retrieve_temp_file (file_name : string) (st : storage) : storage :=
  match blobs st !! file_name with
  | Some content => Storage (<[file_name := content]> (local_files st)) (blobs st)
  | None =>
      Storage (<[file_name := []]> (local_files st)) (<[file_name := []]> (blobs st))
  end.

Definition initialize_and_retrieve_temp_files (h : Blob.handler) (st : storage)
    : storage :=
  foldl (λ st file_name, retrieve_temp_file file_name st) st (Blob.temp_files h).

(** The loop of [save_temp_files_to_azure_storage] over the files that are
    left: [delete_blob()], then [open(file_name, "rb")], then the upload. *)
Fixpoint save_temp_files (file_names : list string) (st : storage)
    : storage_exn * storage + storage :=
  match file_names with
  | [] => inr st
  | file_name :: rest =>
      match blobs st !! file_name with
      | None => inl (ResourceNotFoundError file_name, st)
      | Some _ =>
          let st := Storage (local_files st) (delete file_name (blobs st)) in
          match local_files st !! file_name with
          | None => inl (FileNotFoundError file_name, st)
          | Some data =>
              save_temp_files rest
                (Storage (local_files st) (<[file_name := data]> (blobs st)))
          end
      end
  end.

Definition save_temp_files_to_azure_storage (h : Blob.handler) (st : storage)
    : storage_exn * storage + storage :=
  save_temp_files (Blob.temp_files h) st.

(** * Specification vocabulary *)

(** [id] is present in the log [file]. *)
Definition marked (s : state) (file : string) (id : string) : Prop :=
  ∃ lines, fs s !! file = Some lines ∧ IdLine id ∈ lines.

(** [s] after the effects [evs]. *)
Definition add_events (evs : list event) (s : state) : state :=
  State (sp s) (astra s) (fs s) (vstore s) (trace s ++ evs).

(** The effects of [k] failed store writes, each followed by the retry
    delay. *)
Fixpoint failed_attempts (chunks : list Document) (delay : Z) (k : nat) : list event :=
  match k with
  | O => []
  | S k' => AddDocuments chunks false :: Sleep delay :: failed_attempts chunks delay k'
  end.

(** The answer of the store to a write made after [k] failed attempts of the
    same call that started in [s]. *)
Definition attempt_answer (w : World) (chunks : list Document) (s : state)
    (k : nat) : option (list string) :=
  add_documents w chunks (length (trace s) + 2 * k).

(** A download that is answered neither with success nor with 403, however
    often it is tried. *)
Definition persistently_failing (w : World) (drive_id item_id : string) : Prop :=
  ∀ n, cr_status (content_endpoint w drive_id item_id n) ≠ 200%Z
       ∧ cr_status (content_endpoint w drive_id item_id n) ≠ 403%Z.

(** The lines of the error log. *)
Definition error_log (s : state) : list line :=
  default [] (fs s !! SharePoint.error_items_file (sp s)).

(** [s] after one failed attempt of a first-time fetch: the request, the
    counter, the error record. *)
Definition after_failed_attempt (w : World)
    (site_id drive_id item_id item_path drive_name : string) (s : state) : state :=
  let d := ErrorDetails site_id drive_id item_id drive_name item_path in
  let file := SharePoint.error_items_file (sp s) in
  State (bump_api_call_count (sp s)) (astra s)
    (<[file := error_log s ++ [ErrorLine d]]> (fs s)) (vstore s)
    (trace s
     ++ [GetContent drive_id item_id
           (cr_status (content_endpoint w drive_id item_id (length (trace s))));
         AppendLine file (ErrorLine d)]).

(** The parts of the state that only [__init__] and the log operations set. *)
Definition same_config (s s' : state) : Prop :=
  SharePoint.dry_run (sp s') = SharePoint.dry_run (sp s)
  ∧ SharePoint.max_retries (sp s') = SharePoint.max_retries (sp s)
  ∧ SharePoint.processed_items_file (sp s') = SharePoint.processed_items_file (sp s)
  ∧ SharePoint.processed_drives_file (sp s') = SharePoint.processed_drives_file (sp s)
  ∧ SharePoint.error_items_file (sp s') = SharePoint.error_items_file (sp s)
  ∧ SharePoint.white_list_file_extensions (sp s')
    = SharePoint.white_list_file_extensions (sp s)
  ∧ astra s' = astra s.

Definition is_token_exchange (e : event) : Prop := ∃ g, e = PostToken g.

Definition is_auth_failure (e : exn) : Prop :=
  ∃ status, e = AuthUserFailed status ∨ e = AuthAdminFailed status.

(** The effects [s'] has beyond [s] are token exchanges only, and the logs and
    the store are as in [s]. *)
Definition token_exchanges_only (s s' : state) : Prop :=
  same_config s s' ∧ fs s' = fs s ∧ vstore s' = vstore s
  ∧ ∃ evs, trace s' = trace s ++ evs ∧ Forall is_token_exchange evs.

(** An outcome reached from [s] through token exchanges only: it is a result
    or an authentication failure. *)
Definition token_outcome {A} (s : state) (o : outcome A) : Prop :=
  token_exchanges_only s (final_state o)
  ∧ match o with
    | Ret _ _ => True
    | Raise e _ => is_auth_failure e
    | Timeout _ => False
    end.

(** The path of an entry named [name] of the folder at [parent]: the parent
    path, ["/"], the name; entries of the drive root ["/"] are rooted at
    ["/"]. *)
Definition child_path (parent name : string) : string :=
  if String.eqb parent "/" then "/" +:+ name else parent +:+ "/" +:+ name.

(** [entry_of p r parent it]: in the hierarchy whose folder at path [p] is
    listed by the page chain [r], the item [it] is an entry of the folder at
    path [parent] (that folder itself, or one below it). *)
Inductive entry_of : string → response → string → item → Prop :=
| entry_here p status value next it :
    it ∈ value → entry_of p (Response status value next) p it
| entry_next p status value r parent it :
    entry_of p r parent it →
    entry_of p (Response status value (Some r)) parent it
| entry_below p status value next i n m children parent it :
    Item i n m (Some children) ∈ value →
    entry_of (child_path p n) children parent it →
    entry_of p (Response status value next) parent it.

(** [d] describes an entry of the hierarchy under [r], with the path its
    parent folder gives it. *)
Definition produced_from (site_id drive_id drive_name : string) (p : string)
    (r : response) (d : item_details) : Prop :=
  ∃ parent it,
    entry_of p r parent it
    ∧ d = _extract_item_details it site_id drive_id drive_name parent.

Definition produced_by_item (site_id drive_id drive_name : string)
    (p : string) (it : item) (d : item_details) : Prop :=
  d = _extract_item_details it site_id drive_id drive_name p
  ∨ ∃ children,
      item_folder_of it = Some children
      ∧ produced_from site_id drive_id drive_name
          (child_path p (item_name_of it)) children d.

(** An outcome of the walker started in [s] on the list [items]: it is a
    result or an exception, and a result extends [items] by descriptors
    that satisfy [Φ]. *)
Definition walker_outcome (s : state) (items : list item_details)
    (Φ : item_details → Prop) (o : outcome (list item_details)) : Prop :=
  same_config s (final_state o)
  ∧ match o with
    | Ret items' _ => ∃ new, items' = items ++ new ∧ Forall Φ new
    | Raise _ _ => True
    | Timeout _ => False
    end.

(** The state right after a page request. *)
Definition after_page_request (drive_id : string) (item_id : option string)
    (s : state) : state :=
  State (bump_api_call_count (sp s)) (astra s) (fs s) (vstore s)
    (trace s ++ [GetChildren drive_id item_id]).

(** What a call of the store write can have done, whatever the store
    answers. *)
Definition ingest_outcome (chunks : list Document) (s : state)
    (o : outcome (option (list string))) : Prop :=
  match o with
  | Ret (Some _) s' =>
      sp s' = sp s ∧ astra s' = astra s ∧ fs s' = fs s
      ∧ vstore s' = vstore s ++ [chunks]
      ∧ ∃ evs, trace s' = trace s ++ evs ++ [AddDocuments chunks true]
  | Ret None s' => s' = s
  | Raise e s' =>
      e = StoreWriteFailed
      ∧ sp s' = sp s ∧ astra s' = astra s ∧ fs s' = fs s ∧ vstore s' = vstore s
  | Timeout _ => False
  end.

(** [s] after [mark_item_as_processed(file, id)]. *)
Definition after_mark (file id : string) (s : state) : state :=
  State (sp s) (astra s)
    (<[file := default [] (fs s !! file) ++ [IdLine id]]> (fs s)) (vstore s)
    (trace s ++ [AppendLine file (IdLine id)]).

Definition item_metadata (site_id : string) (item : item_details) : metadata :=
  Metadata (Details.id item) (Details.name item) site_id (Details.path item)
    (Details.drive_name item).

(** The value an outcome returns, if it returns. *)
Definition returned {A} (o : outcome A) : option A :=
  match o with Ret a _ => Some a | _ => None end.

Definition is_page_request (e : event) : bool :=
  match e with GetChildren _ _ => true | _ => false end.

Definition page_request_count (tr : list event) : nat :=
  length (List.filter is_page_request tr).

(** The names and paths of the descriptors an enumeration returns. *)
Definition named_paths (o : outcome (list item_details))
    : option (list (string * string)) :=
  option_map (map (λ d, (Details.name d, Details.path d))) (returned o).

(** Ingest before checkpoint, on a trace: whenever an ID is appended to
    [file], an earlier successful store write held a chunk of that item. *)
Definition flushed_before_marked (file : string) (tr : list event) : Prop :=
  ∀ pre post id,
    tr = pre ++ AppendLine file (IdLine id) :: post →
    ∃ chunks c,
      AddDocuments chunks true ∈ pre ∧ c ∈ chunks ∧ md_id (doc_metadata c) = id.

(** Whether [id] is appended to [file] somewhere in the trace. *)
Definition marked_in_trace (file id : string) (tr : list event) : bool :=
  existsb (λ e, match e with
                | AppendLine f (IdLine i) => String.eqb f file && String.eqb i id
                | _ => false
                end) tr.

(** * Concrete hierarchies and environments *)

Definition file_item (i n : string) : item := Item i n None None.

Definition folder_item (i n : string) (children : response) : item :=
  Item i n None (Some children).

Definition single_page (value : list item) : response := Response 200 value None.

(** An environment whose identity provider and site lookup always succeed;
    the chunker makes one chunk of a text. *)
Definition example_world (drives : list drive)
    (content : string → nat → content_response)
    (store : list Document → nat → option (list string)) : World :=
  {| clock := λ n, Z.of_nat n;
     token_endpoint := λ _ _, TokenResponse 200 "token" 3600;
     site_endpoint := λ _ _, (200%Z, "site");
     drives_endpoint := λ _ _, (200%Z, drives);
     content_endpoint := λ _, content;
     add_documents := store;
     text_splitter := λ text md, [mkDocument text md] |}.

(** Freshly constructed handlers, no log file, an empty store. *)
Definition initial_state (sharepoint_dry_run astra_dry_run : bool) : state :=
  State (SharePointHandler_init sharepoint_dry_run)
        (AstraDBHandler_init astra_dry_run) ∅ [] [].

Definition store_accepts : list Document → nat → option (list string) :=
  λ chunks _, Some (map (λ c, md_id (doc_metadata c)) chunks).

Definition store_refuses : list Document → nat → option (list string) :=
  λ _ _, None.

(** Refuses the first write of a run that starts on an empty trace, accepts
    later ones. *)
Definition store_flaky : list Document → nat → option (list string) :=
  λ chunks n, if n =? 0 then None else Some (map (λ c, md_id (doc_metadata c)) chunks).

Definition readable : string → nat → content_response :=
  λ i _, ContentResponse 200 (Some ("text of " +:+ i)).

Definition server_error : string → nat → content_response :=
  λ _ _, ContentResponse 500 None.

(** Every item is readable except ["d"], which answers 403. *)
Definition readable_but_d : string → nat → content_response :=
  λ i _, if String.eqb i "d" then ContentResponse 403 None
         else ContentResponse 200 (Some ("text of " +:+ i)).

(** A drive root in three pages: [a.txt], [b.txt] / [c.txt] / [d.txt]. *)
Definition root_three_pages : response :=
  Response 200 [file_item "a" "a.txt"; file_item "b" "b.txt"]
    (Some (Response 200 [file_item "c" "c.txt"]
       (Some (Response 200 [file_item "d" "d.txt"] None)))).

(** [doc.docx] inside the root-level folder [F]. *)
Definition root_nested : response :=
  single_page [folder_item "F1" "F" (single_page [file_item "D1" "doc.docx"])].

(** [doc.docx] next to the (empty) root-level folder [F]. *)
Definition root_sibling : response :=
  single_page [folder_item "F1" "F" (single_page []); file_item "D1" "doc.docx"].

Definition bid_drive (root : response) : drive :=
  Drive "D" "SBX - Bid Respository" root.

Definition example_chunk (i : string) : Document :=
  mkDocument ("text of " +:+ i)
    (Metadata i (i +:+ ".txt") "site" ("/" +:+ i +:+ ".txt") "SBX - Bid Respository").

(** A run with one whitelisted drive whose root holds [a.txt],
    [b.txt], [c.txt] and [d.txt]; every download succeeds except that of
    ["d"], the last item, which is answered 403; the store accepts every
    write; [bulk_item_count] is 10. *)
Definition run_with_denied_last_item : outcome counters :=
  process_all_sharepoint_files_by_site_name
    (example_world [bid_drive root_three_pages] readable_but_d store_accepts)
    5 "site name" (-1) (-1) 10 (initial_state false false).

(** The same drive followed, in name order, by a drive that is not on
    [drive_white_list]; every download succeeds. *)
Definition run_with_trailing_drive : outcome counters :=
  process_all_sharepoint_files_by_site_name
    (example_world
       [Drive "Z" "Zeta" (single_page []); bid_drive root_three_pages]
       readable store_accepts)
    5 "site name" (-1) (-1) 10 (initial_state false false).

(** A resumed run: drive ["D"] and item ["a"] are in the logs. *)
Definition resumed_state : state :=
  State (SharePointHandler_init false) (AstraDBHandler_init false)
    (<[".tmp_processed_drives" := [IdLine "D"]]>
       {[ ".tmp_processed_items" := [IdLine "a"] ]})
    [] [].

(** Three whitelisted files already collected. *)
Definition three_collected : list item_details :=
  [ _extract_item_details (file_item "a" "a.txt") "site" "D" "Documents" "/";
    _extract_item_details (file_item "b" "b.txt") "site" "D" "Documents" "/";
    _extract_item_details (file_item "c" "c.txt") "site" "D" "Documents" "/" ].

(** The descriptor of [a.txt] at the root of [bid_drive]. *)
Definition first_item : item_details :=
  _extract_item_details (file_item "a" "a.txt") "site" "D"
    "SBX - Bid Respository" "/".

(** ** Vocabulary for the further properties *)

(** An ID of printable ASCII characters, as the IDs of the Graph API are.
    Such an ID holds none of the characters at which a log is split into
    lines when it is read back ([f.read().splitlines()]), so
    [mark_item_as_processed] writes it as one line. *)
Fixpoint printable_ascii (id : string) : bool :=
  match id with
  | EmptyString => true
  | String a id' =>
      (32 <=? nat_of_ascii a) && (nat_of_ascii a <? 127) && printable_ascii id'
  end.

(** A handler whose two tokens expire at [expiry]. *)
Definition handler_with_tokens (expiry : Z) : SharePoint.handler :=
  set_token_admin "admin token" expiry
    (set_token_user "user token" expiry (SharePointHandler_init false)).

Definition state_with_tokens (expiry : Z) : state :=
  State (handler_with_tokens expiry) (AstraDBHandler_init false) ∅ [] [].

(** An environment with every variable of [main_required_env_vars] set. *)
Definition full_environ : gmap string string :=
  list_to_map ((λ var, (var, "value")) <$> main_required_env_vars).

(** A machine and a container that both hold the four temporary files. *)
Definition storage_in_step : storage :=
  initialize_and_retrieve_temp_files (BlobStorageHandler_init "container" None)
    (Storage {[ ".tmp_processed_drives" := [IdLine "D"; IdLine "E"] ]}
             {[ ".tmp_processed_drives" := [IdLine "D"] ]}).

(** The requests the SharePoint handler makes. *)
Definition is_request (e : event) : bool :=
  match e with
  | PostToken _ | GetSite _ | GetDrives _ | GetChildren _ _ | GetContent _ _ _ => true
  | AddDocuments _ _ | Sleep _ | AppendLine _ _ | RemoveFile _ => false
  end.

Definition request_count (tr : list event) : nat :=
  length (List.filter is_request tr).

(** [s] after a request and the [self.api_call_count += 1] that follows
    it. *)
Definition after_request (e : event) (s : state) : state :=
  State (bump_api_call_count (sp s)) (astra s) (fs s) (vstore s) (trace s ++ [e]).

(** An outcome whose final state is related to [s0] by [R]. *)
Definition kept (R : state → state → Prop) (s0 : state) {A} (o : outcome A) : Prop :=
  R s0 (final_state o).

(** What every operation of a run keeps between the state [s0] it started in
    and a later state [s]: the configuration of the handlers; the API-call
    counter has grown by the number of requests made since; the store and
    every log file other than the processed-items log have only been
    appended to. *)
Definition reachable (s0 s : state) : Prop :=
  same_config s0 s
  ∧ (∃ evs, trace s = trace s0 ++ evs
            ∧ SharePoint.api_call_count (sp s)
              = SharePoint.api_call_count (sp s0) + request_count evs)
  ∧ vstore s0 `prefix_of` vstore s
  ∧ ∀ f, f ≠ SharePoint.processed_items_file (sp s0) →
         default [] (fs s0 !! f) `prefix_of` default [] (fs s !! f).

(** An operation that leaves the files and the store as they are and whose
    effects all satisfy [E]. *)
Definition events_only (E : event → Prop) (s0 s : state) : Prop :=
  fs s = fs s0 ∧ vstore s = vstore s0
  ∧ ∃ evs, trace s = trace s0 ++ evs ∧ Forall E evs.


(** The effects of an enumeration of drive [drive_id]: token exchanges and
    page requests for that drive. *)
Definition enumeration_event (drive_id : string) (e : event) : Prop :=
  is_token_exchange e ∨ ∃ folder, e = GetChildren drive_id folder.

(** The effects of the discovery of the site and its drives. *)
Definition discovery_event (e : event) : Prop :=
  is_token_exchange e ∨ (∃ site_name, e = GetSite site_name)
  ∨ ∃ site, e = GetDrives site.

(** The counters at the start of a run. *)
Definition no_progress : counters := Locals.Build 0 0 0 [].

Definition is_drive_white_listed (d : drive) : bool :=
  existsb (String.eqb (d_name d)) drive_white_list.


(** An environment whose drive listing holds one drive that is not on
    [drive_white_list]. *)
Definition world_without_white_listed_drive : World :=
  example_world [Drive "Z" "Zeta" (single_page [file_item "a" "a.txt"])]
    readable store_accepts.


(** * Properties *)

(** Runs the state plumbing of the monad on the goal. *)
Ltac run_state :=
  unfold emit, bind, get, gets, modify, ret, raise, with_sp, with_fs, with_vstore;
  cbn beta iota; cbn [sp astra fs vstore trace].

(** ** Checkpoint log membership *)

Lemma existsb_line_is (id : string) (lines : list line) :
  existsb (line_is (Some id)) lines = true ↔ IdLine id ∈ lines.
Proof.
  rewrite existsb_exists. split.
  - intros (l & Hin & Hl). apply list_elem_of_In in Hin.
    destruct l as [j|d]; simpl in Hl; [|discriminate].
    apply String.eqb_eq in Hl. by subst.
  - intros Hin. exists (IdLine id). split.
    + by apply list_elem_of_In.
    + simpl. apply String.eqb_refl.
Qed.

Lemma log_has_marked (s : state) (file id : string) :
  marked s file id → log_has s file (Some id) = true.
Proof.
  intros (lines & Hfile & Hin). unfold log_has.
  rewrite Hfile. by apply existsb_line_is.
Qed.

Lemma log_has_true_marked (s : state) (file id : string) :
  log_has s file (Some id) = true → marked s file id.
Proof.
  unfold log_has, marked. destruct (fs s !! file) as [lines|]; [|done].
  intros Hin. exists lines. split; [done|]. by apply existsb_line_is.
Qed.

(** The prologue of [get_items_in_item_recursive], case by case. *)
Lemma enter_folder_unfold (w : World) (site_id drive_id : string) (max_items : Z)
    (item_id : option string) (items_list : list item_details)
    (k : list item_details → M (list item_details)) (s : state) :
  enter_folder w site_id drive_id max_items item_id items_list k s
  = if log_has s (SharePoint.processed_drives_file (sp s)) (Some drive_id)
    then Ret items_list s
    else if log_has s (SharePoint.processed_items_file (sp s)) item_id
    then Ret items_list s
    else match check_token w s with
         | Ret _ s1 =>
             if SharePoint.dry_run (sp s1)
             then Ret (items_list ++ dry_run_items site_id drive_id) s1
             else if (0 <? max_items)%Z
                     && (max_items <?
                         Z.of_nat (length (List.filter (is_whitelisted_file
                             (SharePoint.white_list_file_extensions (sp s1)))
                           items_list)))%Z
             then Ret items_list s1
             else k items_list s1
         | Raise e s1 => Raise e s1
         | Timeout s1 => Timeout s1
         end.
Proof.
  unfold enter_folder, has_been_processed. run_state.
  destruct (log_has s _ (Some drive_id)); [done|].
  destruct (log_has s _ item_id); [done|].
  destruct (check_token w s) as [[] s1|e s1|s1]; try done.
  destruct (SharePoint.dry_run (sp s1)); [done|].
  by destruct (andb _ _).
Qed.

(** C4. Subtree pruning: when the drive ID is in the processed-drives log, or
    the start folder's ID is in the processed-items log,
    [get_items_in_item_recursive] returns the accumulated list as it was
    handed in (a new empty list when none was) and leaves the whole state
    untouched: the trace gains no request and the API-call counter stays
    put. *)
Theorem subtree_pruning (w : World) (site_id drive_id drive_name : string)
    (max_items : Z) (item_id : option string) (path : string)
    (items_list : option (list item_details)) (listing : response) (s : state) :
  marked s (SharePoint.processed_drives_file (sp s)) drive_id
  ∨ (∃ folder_id, item_id = Some folder_id
       ∧ marked s (SharePoint.processed_items_file (sp s)) folder_id) →
  get_items_in_item_recursive w site_id drive_id drive_name max_items
    item_id path items_list listing s
  = Ret (match items_list with Some l => l | None => [] end) s.
Proof.
  intros Hmarked. unfold get_items_in_item_recursive.
  rewrite enter_folder_unfold.
  destruct Hmarked as [Hdrive | (folder_id & -> & Hitem)].
  - by rewrite (log_has_marked _ _ _ Hdrive).
  - rewrite (log_has_marked _ _ _ Hitem). by destruct (log_has _ _ _).
Qed.

(** C5. Idempotent resume: for an item ID in the processed-items log,
    [get_item_content] returns [None] (the skipped outcome) at once, whatever
    the loop bound, and the state is untouched: no token exchange, no content
    request. *)
Theorem idempotent_resume (w : World) (fuel : nat)
    (site_id drive_id item_id item_name item_path drive_name : string)
    (is_retry : bool) (s : state) :
  marked s (SharePoint.processed_items_file (sp s)) item_id →
  get_item_content w fuel site_id drive_id item_id item_name item_path
    drive_name is_retry s
  = Ret None s.
Proof.
  intros Hmarked. unfold get_item_content, has_been_processed. run_state.
  by rewrite (log_has_marked _ _ _ Hmarked).
Qed.

(** ** Bounded retry of the store write *)

Lemma add_events_nil (s : state) : add_events [] s = s.
Proof. destruct s. unfold add_events. simpl. by rewrite app_nil_r. Qed.

Lemma add_events_app (evs evs' : list event) (s : state) :
  add_events evs' (add_events evs s) = add_events (evs ++ evs') s.
Proof. unfold add_events. simpl. by rewrite app_assoc. Qed.

Section IngestRetry.
Context (w : World) (chunks : list Document).

Local Abbreviation attempt_answer := (attempt_answer w chunks).

Lemma attempt_answer_shift (s : state) (k : nat) :
  attempt_answer
    (add_events [AddDocuments chunks false; Sleep (AstraDB.retry_delay (astra s))] s) k
  = attempt_answer s (S k).
Proof.
  unfold attempt_answer, add_events. simpl. rewrite length_app. simpl.
  f_equal. lia.
Qed.

Lemma ingest_attempts_retry (remaining : nat) (attempt : Z) (s : state) :
  attempt_answer s 0 = None →
  (attempt < AstraDB.max_retries (astra s) - 1)%Z →
  ingest_attempts w (S remaining) attempt chunks s
  = ingest_attempts w remaining (attempt + 1)%Z chunks
      (add_events
         [AddDocuments chunks false; Sleep (AstraDB.retry_delay (astra s))] s).
Proof.
  intros Hnone Hlt. unfold attempt_answer in Hnone.
  rewrite Nat.add_0_r in Hnone.
  cbn [ingest_attempts]. unfold bind at 1.
  unfold vstore_add_documents, get, bind. rewrite Hnone.
  cbn [emit modify ret astra].
  apply Z.ltb_lt in Hlt. rewrite Hlt.
  unfold sleep. cbn [emit modify astra trace sp fs vstore].
  unfold add_events. by rewrite <- app_assoc.
Qed.

Lemma ingest_attempts_first_success (k : nat) :
  ∀ (remaining : nat) (attempt : Z) (s : state) (ids : list string),
    (Z.of_nat remaining + attempt)%Z = AstraDB.max_retries (astra s) →
    k < remaining →
    (∀ j, j < k → attempt_answer s j = None) →
    attempt_answer s k = Some ids →
    ingest_attempts w remaining attempt chunks s
    = Ret (Some ids)
        (with_vstore (λ b, b ++ [chunks])
           (add_events
              (failed_attempts chunks (AstraDB.retry_delay (astra s)) k
               ++ [AddDocuments chunks true]) s)).
Proof.
  induction k as [|k IH]; intros remaining attempt s ids Hsum Hlt Hfail Hok;
    destruct remaining as [|remaining]; try lia.
  - unfold attempt_answer in Hok. rewrite Nat.add_0_r in Hok.
    cbn [ingest_attempts]. unfold bind, vstore_add_documents, get, bind.
    rewrite Hok. reflexivity.
  - rewrite ingest_attempts_retry; [|apply Hfail; lia|lia].
    rewrite (IH remaining (attempt + 1)%Z _ ids).
    + cbn [astra add_events]. unfold with_vstore, add_events.
      cbn [sp astra fs vstore trace failed_attempts]. do 2 f_equal.
      by rewrite <- !app_assoc.
    + cbn [astra add_events]. lia.
    + lia.
    + intros j Hj. rewrite attempt_answer_shift. apply Hfail. lia.
    + by rewrite attempt_answer_shift.
Qed.

Lemma ingest_attempts_exhausted (remaining : nat) :
  ∀ (attempt : Z) (s : state),
    (Z.of_nat (S remaining) + attempt)%Z = AstraDB.max_retries (astra s) →
    (∀ j, j < S remaining → attempt_answer s j = None) →
    ingest_attempts w (S remaining) attempt chunks s
    = Raise StoreWriteFailed
        (add_events
           (failed_attempts chunks (AstraDB.retry_delay (astra s)) remaining
            ++ [AddDocuments chunks false]) s).
Proof.
  induction remaining as [|remaining IH]; intros attempt s Hsum Hfail.
  - pose proof (Hfail 0 ltac:(lia)) as Hnone.
    unfold attempt_answer in Hnone. rewrite Nat.add_0_r in Hnone.
    cbn [ingest_attempts]. unfold bind at 1.
    unfold vstore_add_documents, get, bind. rewrite Hnone.
    cbn [emit modify ret astra].
    assert ((attempt <? AstraDB.max_retries (astra s) - 1)%Z = false) as ->
      by (apply Z.ltb_ge; lia).
    reflexivity.
  - rewrite ingest_attempts_retry; [|apply Hfail; lia|lia].
    rewrite IH.
    + cbn [astra add_events]. unfold add_events.
      cbn [sp astra fs vstore trace failed_attempts]. do 2 f_equal.
      by rewrite <- !app_assoc.
    + cbn [astra add_events]. lia.
    + intros j Hj. rewrite attempt_answer_shift. apply Hfail. lia.
Qed.
End IngestRetry.

(** C8. Bounded ingest retry.  Outside dry-run mode, with [n] the number of
    iterations [range(max_retries)] gives:
    - if the store accepts the write at attempt [k < n] after refusing the
      [k] attempts before it, the call returns the inserted IDs of that first
      success, having made [k + 1 <= n] attempts with one sleep of
      [retry_delay] after each failed one, and the batch is appended to the
      store;
    - if the store refuses all [n >= 1] attempts, the call raises after the
      last of them (no sleep follows it), having made exactly [n] attempts,
      and the store holds exactly the batches it held before the call;
    - if [n = 0] no attempt is made. *)
Theorem ingest_bounded_retry (w : World) (chunks : list Document) (s : state) :
  AstraDB.dry_run (astra s) = false →
  let n := Z.to_nat (AstraDB.max_retries (astra s)) in
  let delay := AstraDB.retry_delay (astra s) in
  let run := ingest_chunks_with_embeddings_to_astra_db w chunks s in
  (∀ (k : nat) (ids : list string),
     k < n →
     (∀ j, j < k → attempt_answer w chunks s j = None) →
     attempt_answer w chunks s k = Some ids →
     run = Ret (Some ids)
             (with_vstore (λ b, b ++ [chunks])
                (add_events (failed_attempts chunks delay k
                             ++ [AddDocuments chunks true]) s)))
  ∧ (0 < n →
     (∀ j, j < n → attempt_answer w chunks s j = None) →
     run = Raise StoreWriteFailed
             (add_events (failed_attempts chunks delay (n - 1)
                          ++ [AddDocuments chunks false]) s))
  ∧ (n = 0 → run = Ret None s).
Proof.
  intros Hlive n delay run. subst run.
  unfold ingest_chunks_with_embeddings_to_astra_db, bind, get.
  rewrite Hlive. fold n. split; [|split].
  - intros k ids Hk Hfail Hok.
    apply ingest_attempts_first_success; try done. subst n. lia.
  - intros Hn Hfail. destruct n as [|m] eqn:Hm; [lia|].
    replace (S m - 1) with m by lia.
    apply ingest_attempts_exhausted; try done. lia.
  - by intros ->.
Qed.

(** ** What a token check can do *)

Lemma token_exchanges_only_refl (s : state) : token_exchanges_only s s.
Proof.
  repeat split; try done. exists []. by rewrite app_nil_r.
Qed.

Lemma token_exchanges_only_trans (s1 s2 s3 : state) :
  token_exchanges_only s1 s2 → token_exchanges_only s2 s3 →
  token_exchanges_only s1 s3.
Proof.
  intros ((A1 & A2 & A3 & A4 & A5 & A6 & A7) & Afs & Av & evs & At & Ae)
         ((B1 & B2 & B3 & B4 & B5 & B6 & B7) & Bfs & Bv & evs' & Bt & Be).
  repeat split; try congruence.
  exists (evs ++ evs'). split.
  - rewrite Bt, At. by rewrite app_assoc.
  - by apply Forall_app.
Qed.

Lemma token_outcome_ret {A} (a : A) (s : state) : token_outcome s (Ret a s).
Proof. split; [apply token_exchanges_only_refl|done]. Qed.

Lemma token_outcome_bind {A B} (c : M A) (k : A → M B) (s : state) :
  token_outcome s (c s) →
  (∀ a s', token_exchanges_only s s' → token_outcome s' (k a s')) →
  token_outcome s (bind c k s).
Proof.
  intros [Hc Hc'] Hk. unfold bind.
  destruct (c s) as [a s1|e s1|s1]; cbn in *; [|done|done].
  destruct (Hk a s1 Hc) as [Hk1 Hk2]. split; [|done].
  by eapply token_exchanges_only_trans.
Qed.

Lemma token_outcome_post_token (w : World) (g : grant) (s : state) :
  token_outcome s (post_token w g s).
Proof.
  unfold post_token. run_state. split; [|done]. cbn.
  repeat split; try done. eexists. split; [done|].
  repeat constructor. by eexists.
Qed.

Lemma token_outcome_set_token_user (tok : string) (t : Z) (s : state) :
  token_outcome s (modify (with_sp (set_token_user tok t)) s).
Proof.
  run_state. split; [|done]. cbn. repeat split; try done.
  exists []. by rewrite app_nil_r.
Qed.

Lemma token_outcome_set_token_admin (tok : string) (t : Z) (s : state) :
  token_outcome s (modify (with_sp (set_token_admin tok t)) s).
Proof.
  run_state. split; [|done]. cbn. repeat split; try done.
  exists []. by rewrite app_nil_r.
Qed.

Lemma init_auth_token_with_username_password_effects (w : World) (s : state) :
  token_outcome s (init_auth_token_with_username_password w s).
Proof.
  unfold init_auth_token_with_username_password.
  apply token_outcome_bind; [apply token_outcome_ret|]. intros s0 s1 _.
  destruct (SharePoint.dry_run (sp s0)); [apply token_outcome_ret|].
  apply token_outcome_bind; [apply token_outcome_post_token|].
  intros response s2 _.
  destruct (tr_status response =? 200)%Z.
  - apply token_outcome_bind; [apply token_outcome_ret|]. intros t s3 _.
    apply token_outcome_set_token_user.
  - split; [apply token_exchanges_only_refl|]. cbn. eexists; eauto.
Qed.

Lemma init_auth_token_app_only_effects (w : World) (s : state) :
  token_outcome s (init_auth_token_app_only w s).
Proof.
  unfold init_auth_token_app_only.
  apply token_outcome_bind; [apply token_outcome_ret|]. intros s0 s1 _.
  destruct (SharePoint.dry_run (sp s0)); [apply token_outcome_ret|].
  apply token_outcome_bind; [apply token_outcome_post_token|].
  intros response s2 _.
  destruct (tr_status response =? 200)%Z.
  - apply token_outcome_bind; [apply token_outcome_ret|]. intros t s3 _.
    apply token_outcome_set_token_admin.
  - split; [apply token_exchanges_only_refl|]. cbn. eexists; eauto.
Qed.

Lemma check_token_effects (w : World) (s : state) :
  token_outcome s (check_token w s).
Proof.
  unfold check_token.
  apply token_outcome_bind; [apply token_outcome_ret|]. intros s0 s1 _.
  destruct (SharePoint.dry_run (sp s0)); [apply token_outcome_ret|].
  apply token_outcome_bind; [apply token_outcome_ret|]. intros t s2 _.
  apply token_outcome_bind.
  { destruct (_ <=? _)%Z;
      [apply init_auth_token_with_username_password_effects
      |apply token_outcome_ret]. }
  intros _ s3 _.
  apply token_outcome_bind; [apply token_outcome_ret|]. intros s4 s5 _.
  apply token_outcome_bind; [apply token_outcome_ret|]. intros t' s6 _.
  destruct (_ <=? _)%Z;
    [apply init_auth_token_app_only_effects|apply token_outcome_ret].
Qed.

(** ** The download retry loop *)

Section FetchRetry.
Context (w : World) (site_id drive_id item_id item_path drive_name : string).

Local Abbreviation persistently_failing :=
  (persistently_failing w drive_id item_id).
Local Abbreviation after_failed_attempt :=
  (after_failed_attempt w site_id drive_id item_id item_path drive_name).

Lemma get_item_content_loop_failed_attempt (fuel : nat) (retry_count : Z)
    (s : state) :
  persistently_failing →
  (retry_count < SharePoint.max_retries (sp s))%Z →
  get_item_content_loop w (S fuel) site_id drive_id item_id item_path
    drive_name false retry_count s
  = get_item_content_loop w fuel site_id drive_id item_id item_path
      drive_name false 1%Z (after_failed_attempt s).
Proof.
  intros Hfail Hlt. destruct (Hfail (length (trace s))) as [H200 H403].
  apply Z.ltb_lt in Hlt. apply Z.eqb_neq in H200, H403.
  cbn [get_item_content_loop]. unfold bind at 1, get at 1.
  rewrite Hlt. run_state. rewrite H200, H403. cbn [negb].
  unfold mark_item_as_error, append_line. run_state.
  unfold after_failed_attempt, error_log.
  by rewrite <- app_assoc.
Qed.

Lemma after_failed_attempt_max_retries (s : state) :
  SharePoint.max_retries (sp (after_failed_attempt s)) = SharePoint.max_retries (sp s).
Proof. reflexivity. Qed.

Lemma after_failed_attempt_error_log (s : state) :
  error_log (after_failed_attempt s)
  = error_log s
    ++ [ErrorLine (ErrorDetails site_id drive_id item_id drive_name item_path)].
Proof.
  unfold error_log at 1. cbn [after_failed_attempt fs sp bump_api_call_count
    SharePoint.error_items_file].
  by rewrite lookup_insert_eq.
Qed.

Lemma get_item_content_loop_spins (fuel : nat) :
  ∀ (retry_count : Z) (s : state),
    persistently_failing →
    (1 < SharePoint.max_retries (sp s))%Z →
    (retry_count < SharePoint.max_retries (sp s))%Z →
    ∃ s',
      get_item_content_loop w fuel site_id drive_id item_id item_path
        drive_name false retry_count s = Timeout s'
      ∧ SharePoint.api_call_count (sp s') = SharePoint.api_call_count (sp s) + fuel
      ∧ error_log s'
        = error_log s
          ++ replicate fuel
               (ErrorLine (ErrorDetails site_id drive_id item_id drive_name item_path)).
Proof.
  induction fuel as [|fuel IH]; intros retry_count s Hfail Hmax Hlt.
  - exists s. split; [done|]. split; [lia|]. by rewrite app_nil_r.
  - rewrite get_item_content_loop_failed_attempt by done.
    destruct (IH 1%Z (after_failed_attempt s) Hfail) as (s' & Hrun & Hcalls & Hlog).
    + by rewrite after_failed_attempt_max_retries.
    + by rewrite after_failed_attempt_max_retries.
    + exists s'. split; [done|]. split.
      * rewrite Hcalls. cbn. lia.
      * rewrite Hlog, after_failed_attempt_error_log.
        rewrite <- app_assoc. done.
Qed.
End FetchRetry.

(** C2 (what the code does).  With [max_retries = 3], as [__init__] sets it
    (any value above 1 does), a first-time download of an item whose every
    answer is neither 200 nor 403 never leaves the loop of
    [get_item_content]: whatever number [fuel] of iterations is run, the loop
    has made [fuel] requests and written [fuel] error records, and has not
    returned.  The statement [retry_count = + 1] stores 1 at every failure, so
    the condition [retry_count < self.max_retries] stays true.  Hence, outside
    dry-run mode and for an item that is not in the processed-items log,
    [get_item_content] returns no value at all, [None] included. *)
Theorem get_item_content_retries_without_bound (w : World) (fuel : nat)
    (site_id drive_id item_id item_name item_path drive_name : string)
    (s : state) :
  persistently_failing w drive_id item_id →
  (1 < SharePoint.max_retries (sp s))%Z →
  (∃ s',
     get_item_content_loop w fuel site_id drive_id item_id item_path
       drive_name false 0%Z s = Timeout s'
     ∧ SharePoint.api_call_count (sp s') = SharePoint.api_call_count (sp s) + fuel
     ∧ error_log s'
       = error_log s
         ++ replicate fuel
              (ErrorLine (ErrorDetails site_id drive_id item_id drive_name item_path)))
  ∧ (SharePoint.dry_run (sp s) = false →
     ¬ marked s (SharePoint.processed_items_file (sp s)) item_id →
     ∀ content s',
       get_item_content w fuel site_id drive_id item_id item_name item_path
         drive_name false s ≠ Ret content s').
Proof.
  intros Hfail Hmax. split.
  { apply get_item_content_loop_spins; [done|done|lia]. }
  intros Hlive Hnew content s'.
  unfold get_item_content, has_been_processed. run_state.
  destruct (log_has s _ (Some item_id)) eqn:Hlog.
  { by apply log_has_true_marked in Hlog. }
  destruct (check_token_effects w s) as [[(Hdry & Hretries & _) _] _].
  destruct (check_token w s) as [[] s1|e s1|s1]; [|done|done].
  cbn in Hdry, Hretries. rewrite Hdry, Hlive.
  destruct (get_item_content_loop_spins w site_id drive_id item_id item_path
              drive_name fuel 0%Z s1 Hfail) as (s2 & -> & _); [lia|lia|done].
Qed.

(** ** Induction over the remote hierarchy *)

Section HierarchyInduction.
Context (P : item → Prop) (Q : response → Prop).
Hypothesis Hfile : ∀ i n m, P (Item i n m None).
Hypothesis Hfolder : ∀ i n m children, Q children → P (Item i n m (Some children)).
Hypothesis Hlast : ∀ status value, Forall P value → Q (Response status value None).
Hypothesis Hmore : ∀ status value r,
  Forall P value → Q r → Q (Response status value (Some r)).

Fixpoint response_item_ind (r : response) : Q r :=
  match r with
  | Response status value next =>
      let entries :=
        (fix entries (l : list item) : Forall P l :=
           match l with
           | [] => @List.Forall_nil item P
           | it :: l' =>
               @List.Forall_cons item P it l' (item_response_ind it) (entries l')
           end) value in
      match next with
      | None => Hlast status value entries
      | Some r' => Hmore status value r' entries (response_item_ind r')
      end
  end
with item_response_ind (it : item) : P it :=
  match it with
  | Item i n m None => Hfile i n m
  | Item i n m (Some children) => Hfolder i n m children (response_item_ind children)
  end.
End HierarchyInduction.

(** ** The soft cap *)

Lemma same_config_refl (s : state) : same_config s s.
Proof. by repeat split. Qed.

Lemma same_config_trans (s1 s2 s3 : state) :
  same_config s1 s2 → same_config s2 s3 → same_config s1 s3.
Proof.
  intros (A1 & A2 & A3 & A4 & A5 & A6 & A7) (B1 & B2 & B3 & B4 & B5 & B6 & B7).
  repeat split; congruence.
Qed.

(** The one place where the cap is looked at: on entry to a call of
    [get_items_in_item_recursive].  Outside dry-run mode, a call that finds
    [max_items > 0] and more than [max_items] whitelisted files in the
    accumulated list returns that list as it is; beyond a possible token
    refresh it has no effect, so it requests no page and descends into no
    folder. *)
Lemma soft_cap_on_entry (w : World) (site_id drive_id drive_name : string)
    (max_items : Z) (item_id : option string) (path : string)
    (items_list : list item_details) (listing : response) (s : state) :
  SharePoint.dry_run (sp s) = false →
  (0 < max_items)%Z →
  (max_items <
   Z.of_nat (length (List.filter
     (is_whitelisted_file (SharePoint.white_list_file_extensions (sp s)))
     items_list)))%Z →
  let o := get_items_in_item_recursive w site_id drive_id drive_name max_items
             item_id path (Some items_list) listing s in
  token_exchanges_only s (final_state o)
  ∧ match o with
    | Ret returned _ => returned = items_list
    | Raise e _ => is_auth_failure e
    | Timeout _ => False
    end.
Proof.
  intros Hlive Hpos Hcap o. subst o.
  unfold get_items_in_item_recursive. rewrite enter_folder_unfold.
  destruct (log_has s _ (Some drive_id));
    [split; [apply token_exchanges_only_refl|done]|].
  destruct (log_has s _ item_id);
    [split; [apply token_exchanges_only_refl|done]|].
  destruct (check_token_effects w s) as [Htok Hres].
  destruct (check_token w s) as [[] s1|e s1|s1]; cbn in Htok, Hres; [|done|done].
  pose proof Htok as ((Hdry & _ & _ & _ & _ & Hwl & _) & _).
  rewrite Hdry, Hlive, Hwl.
  apply Z.ltb_lt in Hpos, Hcap. by rewrite Hpos, Hcap.
Qed.

(** ** Path derivation *)

Section PathDerivation.
Context (w : World) (site_id drive_id drive_name : string) (max_items : Z).

Local Abbreviation produced_from := (produced_from site_id drive_id drive_name).
Local Abbreviation produced_by_item :=
  (produced_by_item site_id drive_id drive_name).
Local Abbreviation after_page_request := (after_page_request drive_id).

Lemma walker_outcome_ret (s : state) (items : list item_details)
    (Φ : item_details → Prop) :
  walker_outcome s items Φ (Ret items s).
Proof.
  split; [apply same_config_refl|]. exists []. by rewrite app_nil_r.
Qed.

Lemma walker_outcome_start (s s0 : state) (items : list item_details)
    (Φ : item_details → Prop) (o : outcome (list item_details)) :
  same_config s0 s → walker_outcome s items Φ o → walker_outcome s0 items Φ o.
Proof.
  intros Hcfg [Hcfg' Ho]. split; [|done]. by eapply same_config_trans.
Qed.

Lemma walker_outcome_prefix (s : state) (items pre : list item_details)
    (Φ Ψ : item_details → Prop) (o : outcome (list item_details)) :
  Forall Ψ pre → (∀ d, Φ d → Ψ d) →
  walker_outcome s (items ++ pre) Φ o → walker_outcome s items Ψ o.
Proof.
  intros Hpre Himp [Hcfg Ho]. split; [done|].
  destruct o as [items' s'|e s'|s']; [|done|done].
  destruct Ho as (new & -> & Hnew). exists (pre ++ new).
  split; [by rewrite app_assoc|].
  apply Forall_app. split; [done|]. eapply Forall_impl; eauto.
Qed.

Lemma walker_outcome_bind (s : state) (items : list item_details)
    (Φ : item_details → Prop) (c : M (list item_details))
    (k : list item_details → M (list item_details)) :
  walker_outcome s items Φ (c s) →
  (∀ items' s', same_config s s' → walker_outcome s' items' Φ (k items' s')) →
  walker_outcome s items Φ (bind c k s).
Proof.
  intros [Hcfg Hc] Hk. unfold bind.
  destruct (c s) as [items' s'|e s'|s']; cbn in *; [|done|done].
  destruct Hc as (new & -> & Hnew).
  eapply walker_outcome_start; [exact Hcfg|].
  eapply walker_outcome_prefix; [exact Hnew|done|]. by apply Hk.
Qed.

Lemma walker_outcome_enter_folder (s : state) (item_id : option string)
    (items : list item_details) (Φ : item_details → Prop)
    (k : list item_details → M (list item_details)) :
  SharePoint.dry_run (sp s) = false →
  (∀ s1, same_config s s1 → walker_outcome s1 items Φ (k items s1)) →
  walker_outcome s items Φ
    (enter_folder w site_id drive_id max_items item_id items k s).
Proof.
  intros Hlive Hk. rewrite enter_folder_unfold.
  destruct (log_has s _ (Some drive_id)); [apply walker_outcome_ret|].
  destruct (log_has s _ item_id); [apply walker_outcome_ret|].
  destruct (check_token_effects w s) as [[Hcfg _] Hres].
  destruct (check_token w s) as [[] s1|e s1|s1]; cbn in Hcfg, Hres; [|done|done].
  pose proof Hcfg as (Hdry & _). rewrite Hdry, Hlive.
  destruct (andb _ _).
  - eapply walker_outcome_start; [exact Hcfg|apply walker_outcome_ret].
  - eapply walker_outcome_start; [exact Hcfg|]. by apply Hk.
Qed.

Lemma walker_outcome_for_each (p : string) (visit : item → list item_details
      → M (list item_details)) (value : list item) :
  Forall (λ it, ∀ items s, SharePoint.dry_run (sp s) = false →
            walker_outcome s items (produced_by_item p it) (visit it items s))
    value →
  ∀ items s, SharePoint.dry_run (sp s) = false →
    walker_outcome s items (λ d, ∃ it, it ∈ value ∧ produced_by_item p it d)
      (for_each visit value items s).
Proof.
  induction 1 as [|it value Hit _ IH]; intros items s Hlive.
  - apply walker_outcome_ret.
  - cbn [for_each]. apply walker_outcome_bind.
    + eapply walker_outcome_prefix with (pre := []);
        [done| |rewrite app_nil_r; by apply Hit].
      intros d Hd. exists it. split; [left|done].
    + intros items' s' Hcfg.
      eapply walker_outcome_prefix with (pre := []); [done| |].
      2:{ rewrite app_nil_r. apply IH.
          destruct Hcfg as (Hdry & _). by rewrite Hdry. }
      intros d (it' & Hin & Hd). exists it'. split; [by right|done].
Qed.

Lemma walker_outcome_page (status : Z) (value : list item)
    (next : option response) (p : string)
    (visit : string → item → list item_details → M (list item_details)) :
  Forall (λ it, ∀ p items s, SharePoint.dry_run (sp s) = false →
            walker_outcome s items (produced_by_item p it) (visit p it items s))
    value →
  ∀ items s, SharePoint.dry_run (sp s) = false →
    walker_outcome s items (produced_from p (Response status value next))
      (for_each (visit p) value items s).
Proof.
  intros Hvalue items s Hlive.
  eapply walker_outcome_prefix with (pre := []); [done| |].
  2:{ rewrite app_nil_r. apply (walker_outcome_for_each p); [|done].
      eapply Forall_impl; [exact Hvalue|]. intros it Hit. apply Hit. }
  intros d (it & Hin & [-> | (children & Hf & parent & it' & Hentry & ->)]).
  - exists p, it. split; [by constructor|done].
  - exists parent, it'. split; [|done].
    destruct it as [i n m f]. cbn in Hf. subst f.
    by eapply entry_below.
Qed.

Lemma page_requests_produces (r : response) :
  ∀ item_id p items s, SharePoint.dry_run (sp s) = false →
    walker_outcome s items (produced_from p r)
      (page_requests w site_id drive_id drive_name max_items item_id p r items s).
Proof.
  apply (response_item_ind
    (λ it, ∀ p items s, SharePoint.dry_run (sp s) = false →
       walker_outcome s items (produced_by_item p it)
         (visit_item w site_id drive_id drive_name max_items
            (page_requests w site_id drive_id drive_name max_items) p it items s))
    (λ r, ∀ item_id p items s, SharePoint.dry_run (sp s) = false →
       walker_outcome s items (produced_from p r)
         (page_requests w site_id drive_id drive_name max_items
            item_id p r items s))).
  - (* a file *)
    intros i n m p items s Hlive. cbn [visit_item].
    split; [apply same_config_refl|]. eexists. split; [done|].
    constructor; [by left|constructor].
  - (* a folder *)
    intros i n m children IH p items s Hlive. cbn [visit_item].
    set (d := _extract_item_details (Item i n m (Some children))
                site_id drive_id drive_name p).
    eapply walker_outcome_prefix with (pre := [d; d]).
    + repeat constructor; by left.
    + intros d' Hd'. right. exists children. split; [done|]. exact Hd'.
    + replace (items ++ [d; d]) with ((items ++ [d]) ++ [d])
        by (by rewrite <- app_assoc).
      apply walker_outcome_enter_folder; [done|]. intros s1 (Hdry & _).
      apply IH. by rewrite Hdry.
  - (* the last page *)
    intros status value Hvalue item_id p items s Hlive.
    cbn [page_requests]. run_state.
    destruct (status =? 200)%Z; [|split; [by repeat split|done]].
    eapply walker_outcome_start with (s := after_page_request item_id s);
      [by repeat split|].
    pose proof (walker_outcome_page status value None p _ Hvalue items
                  (after_page_request item_id s) Hlive) as Hloop.
    unfold after_page_request in *.
    by destruct (for_each _ value items _) as [items' s'|e s'|s'].
  - (* a page with a next link *)
    intros status value r' Hvalue IH item_id p items s Hlive.
    cbn [page_requests]. run_state.
    destruct (status =? 200)%Z; [|split; [by repeat split|done]].
    eapply walker_outcome_start with (s := after_page_request item_id s);
      [by repeat split|].
    pose proof (walker_outcome_page status value (Some r') p _ Hvalue items
                  (after_page_request item_id s) Hlive) as Hloop.
    unfold after_page_request in *.
    destruct (for_each _ value items _) as [items' s'|e s'|s'];
      [|done|done].
    destruct Hloop as [Hcfg (new & -> & Hnew)].
    eapply walker_outcome_start; [exact Hcfg|].
    eapply walker_outcome_prefix with (pre := new) (Φ := produced_from p r').
    + done.
    + intros d (parent & it & Hentry & ->).
      exists parent, it. split; [by apply entry_next|done].
    + apply IH. cbn in Hcfg. destruct Hcfg as (Hdry & _). by rewrite Hdry.
Qed.
End PathDerivation.

(** ** The orchestrator's per-item step *)

Lemma ingest_attempts_unfold (w : World) (chunks : list Document)
    (remaining : nat) (attempt : Z) :
  ingest_attempts w (S remaining) attempt chunks
  = (let* r := vstore_add_documents w chunks in
     match r with
     | Some inserted_ids => ret (Some inserted_ids)
     | None =>
         let* s := get in
         if (attempt <? AstraDB.max_retries (astra s) - 1)%Z then
           sleep (AstraDB.retry_delay (astra s));;
           ingest_attempts w remaining (attempt + 1)%Z chunks
         else raise StoreWriteFailed
     end).
Proof. reflexivity. Qed.

Lemma ingest_attempts_outcome (w : World) (chunks : list Document) (remaining : nat) :
  ∀ attempt s,
    (Z.of_nat (S remaining) + attempt)%Z = AstraDB.max_retries (astra s) →
    ingest_outcome chunks s (ingest_attempts w (S remaining) attempt chunks s)
    ∧ ∀ s', ingest_attempts w (S remaining) attempt chunks s ≠ Ret None s'.
Proof.
  induction remaining as [|remaining IH]; intros attempt s Hrange.
  - cbn [ingest_attempts]. unfold vstore_add_documents. run_state.
    destruct (add_documents w chunks (length (trace s))) as [ids|]; run_state.
    + split; [|done]. cbn. repeat split; try done. by exists [].
    + assert ((attempt <? AstraDB.max_retries (astra s) - 1)%Z = false) as ->
        by (apply Z.ltb_ge; lia).
      by split.
  - rewrite ingest_attempts_unfold.
    unfold vstore_add_documents. run_state.
    destruct (add_documents w chunks (length (trace s))) as [ids|]; run_state.
    + split; [|done]. cbn. repeat split; try done. by exists [].
    + assert ((attempt <? AstraDB.max_retries (astra s) - 1)%Z = true) as ->
        by (apply Z.ltb_lt; lia).
      unfold sleep. run_state.
      set (s2 := State (sp s) (astra s) (fs s) (vstore s)
           ((trace s ++ [AddDocuments chunks false])
            ++ [Sleep (AstraDB.retry_delay (astra s))])).
      destruct (IH (attempt + 1)%Z s2) as [Hout Hsome].
      { cbn [astra s2]. lia. }
      split; [|exact Hsome].
      assert (Hs2 : sp s2 = sp s ∧ astra s2 = astra s ∧ fs s2 = fs s
                    ∧ vstore s2 = vstore s
                    ∧ trace s2 = trace s ++ [AddDocuments chunks false;
                         Sleep (AstraDB.retry_delay (astra s))]).
      { repeat split. cbn [trace s2]. by rewrite <- app_assoc. }
      clearbody s2.
      destruct Hs2 as (Hsp & Hastra & Hfs & Hv & Htr2).
      revert Hout Hsome.
      generalize (ingest_attempts w (S remaining) (attempt + 1)%Z chunks s2).
      intros [[ids|] s'|e s'|s'] Hout Hsome; unfold ingest_outcome in *.
      * destruct Hout as (? & ? & ? & ? & evs & Htr).
        repeat split; try congruence.
        exists ([AddDocuments chunks false; Sleep (AstraDB.retry_delay (astra s))]
                ++ evs).
        rewrite Htr, Htr2, <- !app_assoc. done.
      * by destruct (Hsome s').
      * destruct Hout as (? & ? & ? & ? & ?). repeat split; congruence.
      * done.
Qed.

Lemma ingest_chunks_outcome (w : World) (chunks : list Document) (s : state) :
  ingest_outcome chunks s (ingest_chunks_with_embeddings_to_astra_db w chunks s).
Proof.
  unfold ingest_chunks_with_embeddings_to_astra_db. run_state.
  destruct (AstraDB.dry_run (astra s)); [done|].
  destruct (Z.to_nat (AstraDB.max_retries (astra s))) as [|n] eqn:Hn; [done|].
  apply ingest_attempts_outcome. lia.
Qed.

(** The statements under [if content:], case by case. *)
Lemma ingest_item_unfold (w : World) (site_id : string) (bulk_item_count : Z)
    (d : drive) (last : bool) (item : item_details) (content : string)
    (c : counters) (s : state) :
  let buffer :=
    Locals.combined_chunks c ++ text_splitter w content (item_metadata site_id item) in
  ingest_item w site_id bulk_item_count d last item content c s
  = if (bulk_item_count =? 0)%Z then Raise ZeroDivisionError s
    else if (Locals.total_processed_items c mod bulk_item_count =? 0)%Z || last
    then match ingest_chunks_with_embeddings_to_astra_db w buffer s with
         | Ret (Some ids) s2 =>
             Ret (Locals.Build
                    (Locals.inserted_db_document_count c + Z.of_nat (length ids))
                    (Locals.inserted_item_count c + bulk_item_count)
                    (Locals.total_processed_items c + 1) [])
                 (after_mark (SharePoint.processed_items_file (sp s2))
                    (Details.id item) s2)
         | Ret None s2 => Raise TypeError s2
         | Raise e s2 => Raise e s2
         | Timeout s2 => Timeout s2
         end
    else Ret (Locals.Build (Locals.inserted_db_document_count c)
                (Locals.inserted_item_count c)
                (Locals.total_processed_items c + 1) buffer)
             (after_mark (SharePoint.processed_items_file (sp s))
                (Details.id item) s).
Proof.
  cbn zeta. unfold ingest_item, flush_due, item_metadata.
  unfold bind at 1.
  destruct (bulk_item_count =? 0)%Z; [done|].
  unfold ret at 1.
  destruct (_ || last).
  - unfold bind at 1. unfold bind at 1.
    destruct (ingest_chunks_with_embeddings_to_astra_db w _ s)
      as [[ids|] s2|e s2|s2]; try done.
  - done.
Qed.

(** C1 (as the code has it).  For an item whose fetch returned [content]:
    - when the content is [None] or empty, the step ends there: nothing is
      appended to the processed-items log;
    - when there is content, the ID is appended as the last effect of the
      step, after the item's chunks joined the buffer.  If a flush is due at
      this item (the running count is a multiple of [bulk_item_count], or it
      is the last item of the last drive), the buffer, the item's chunks
      included, is in the store before the ID is appended, and a failed flush
      raises with the log as it was.  If no flush is due, the ID is appended
      while the chunks are still in the buffer only. *)
Theorem checkpoint_follows_accumulation (w : World) (fuel : nat)
    (site_id : string) (bulk_item_count : Z) (d : drive) (last_drive : bool)
    (n_items item_idx : nat) (item : item_details) (c : counters)
    (s s1 : state) (content : option string) :
  get_item_content w fuel site_id (d_id d) (Details.id item) (Details.name item)
    (Details.path item) (d_name d) false s = Ret content s1 →
  let o := process_item w fuel site_id bulk_item_count d last_drive n_items
             item_idx item c s in
  let file := SharePoint.processed_items_file (sp s1) in
  let last := (Z.of_nat item_idx =? Z.of_nat n_items - 1)%Z && last_drive in
  match content with
  | Some (String a text) =>
      let buffer :=
        Locals.combined_chunks c
        ++ text_splitter w (String a text) (item_metadata site_id item) in
      match o with
      | Ret c' s' =>
          Locals.total_processed_items c' = (Locals.total_processed_items c + 1)%Z
          ∧ ∃ s2,
              s' = after_mark file (Details.id item) s2
              ∧ if (Locals.total_processed_items c mod bulk_item_count =? 0)%Z || last
                then Locals.combined_chunks c' = []
                     ∧ fs s2 = fs s1
                     ∧ vstore s2 = vstore s1 ++ [buffer]
                     ∧ ∃ evs, trace s2 = trace s1 ++ evs ++ [AddDocuments buffer true]
                else Locals.combined_chunks c' = buffer ∧ s2 = s1
      | Raise _ s' => fs s' = fs s1 ∧ vstore s' = vstore s1
      | Timeout _ => False
      end
  | Some EmptyString | None => o = Ret c s1
  end.
Proof.
  intros Hfetch o file last. subst o.
  unfold process_item, bind. rewrite Hfetch.
  destruct content as [[|a text]|]; [done| |done].
  fold last. rewrite ingest_item_unfold. cbn zeta.
  destruct (bulk_item_count =? 0)%Z; [done|].
  destruct (_ || last).
  - pose proof (ingest_chunks_outcome w
      (Locals.combined_chunks c
       ++ text_splitter w (String a text) (item_metadata site_id item)) s1) as Hout.
    destruct (ingest_chunks_with_embeddings_to_astra_db w _ s1)
      as [[ids|] s2|e s2|s2]; cbn in Hout.
    + destruct Hout as (Hsp & _ & Hfs & Hv & Htr).
      split; [done|]. exists s2. subst file. by rewrite Hsp.
    + by subst.
    + by destruct Hout as (_ & _ & _ & ? & ?).
    + done.
  - split; [done|]. by exists s1.
Qed.

(** ** Dry-run mode of the store handler *)

(** With both handlers in dry-run mode, as [main] builds them from the
    [--dry-run] flag, the only drive listed is not on [drive_white_list]; the
    run ends without fetching an item or reaching a flush. *)
Lemma full_dry_run_completes (w : World) (fuel : nat) (site_name : string)
    (max_drives max_items bulk_item_count : Z) (s : state) :
  SharePoint.dry_run (sp s) = true →
  process_all_sharepoint_files_by_site_name w fuel site_name max_drives
    max_items bulk_item_count s
  = Ret (Locals.Build 0 0 0 []) s.
Proof.
  intros Hdry.
  unfold process_all_sharepoint_files_by_site_name,
    init_auth_token_with_username_password, get_site_id_by_site_name,
    get_drives_by_site_id, check_token.
  run_state. repeat (rewrite Hdry; cbn beta iota).
  assert (take_if_positive max_drives [dry_run_drive] = [dry_run_drive]) as ->.
  { unfold take_if_positive. destruct (0 <? max_drives)%Z eqn:Hpos; [|done].
    apply Z.ltb_lt in Hpos.
    destruct (Z.to_nat max_drives) as [|[|n]] eqn:Hn; [lia|done|done]. }
  reflexivity.
Qed.

(** C10 (as the code has it).  In dry-run mode
    [ingest_chunks_with_embeddings_to_astra_db] returns [None] and touches
    nothing; an item with content at which a flush is due then makes the
    orchestrator take [len(None)], a [TypeError], before the item is marked.
    A run reaches such a flush only with the store handler in dry-run mode
    and a live SharePoint handler, and there is such a run that ends in this
    [TypeError]; with the SharePoint handler in dry-run mode, as in every
    dry run that [main] starts, a run returns with its counters at zero and
    the state untouched, whatever mode the store handler is in. *)
Theorem dry_run_flush_raises_type_error :
  (∀ (w : World) (chunks : list Document) (s : state),
     AstraDB.dry_run (astra s) = true →
     ingest_chunks_with_embeddings_to_astra_db w chunks s = Ret None s)
  ∧ (∀ (w : World) (site_id : string) (bulk_item_count : Z) (d : drive)
       (last : bool) (item : item_details) (content : string) (c : counters)
       (s : state),
       AstraDB.dry_run (astra s) = true →
       bulk_item_count ≠ 0%Z →
       (Locals.total_processed_items c mod bulk_item_count = 0)%Z ∨ last = true →
       ingest_item w site_id bulk_item_count d last item content c s
       = Raise TypeError s)
  ∧ (∃ s',
        process_all_sharepoint_files_by_site_name
          (example_world [bid_drive root_three_pages] readable store_accepts)
          5 "site name" (-1) (-1) 10 (initial_state false true)
        = Raise TypeError s')
  ∧ (∀ (w : World) (fuel : nat) (site_name : string)
       (max_drives max_items bulk_item_count : Z) (s : state),
       SharePoint.dry_run (sp s) = true →
       process_all_sharepoint_files_by_site_name w fuel site_name max_drives
         max_items bulk_item_count s
       = Ret (Locals.Build 0 0 0 []) s).
Proof.
  assert (Hnone : ∀ (w : World) (chunks : list Document) (s : state),
     AstraDB.dry_run (astra s) = true →
     ingest_chunks_with_embeddings_to_astra_db w chunks s = Ret None s).
  { intros w chunks s Hdry.
    unfold ingest_chunks_with_embeddings_to_astra_db. run_state. by rewrite Hdry. }
  split; [exact Hnone|]. split.
  - intros w site_id N d last item content c s Hdry HN Hdue.
    rewrite ingest_item_unfold. cbn zeta.
    apply Z.eqb_neq in HN. rewrite HN.
    assert ((Locals.total_processed_items c mod N =? 0)%Z || last = true) as ->.
    { destruct Hdue as [Hmod| ->]; [|apply orb_true_r].
      apply Z.eqb_eq in Hmod. by rewrite Hmod. }
    by rewrite Hnone.
  - split; [eexists; vm_compute; reflexivity|].
    intros w fuel site_name max_drives max_items bulk_item_count s.
    apply full_dry_run_completes.
Qed.

(** C10, the claim refuted.  No dry run raises the [TypeError]: the handlers
    of a dry run are both in dry-run mode ([initialize_handlers] passes the
    one [--dry-run] flag to both), and with the SharePoint handler in dry-run
    mode no environment, no arguments and no log files make the run end in
    [TypeError]. *)
Lemma dry_run_raises_no_type_error :
  ¬ ∃ (w : World) (fuel : nat) (site_name : string)
      (max_drives max_items bulk_item_count : Z) (s s' : state),
      SharePoint.dry_run (sp s) = true
      ∧ AstraDB.dry_run (astra s) = true
      ∧ process_all_sharepoint_files_by_site_name w fuel site_name max_drives
          max_items bulk_item_count s
        = Raise TypeError s'.
Proof.
  intros (w & fuel & site_name & max_drives & max_items & bulk_item_count
          & s & s' & Hdry & _ & Hrun).
  by rewrite full_dry_run_completes in Hrun.
Qed.

(** ** Enumeration results *)

(** C9. Path derivation.  Outside dry-run mode an enumeration from the drive
    root ends with a list or an exception; every descriptor of the list
    belongs to an entry of the hierarchy and its path is the path of the
    folder that holds the entry, ["/"], and its name, entries of the root
    being rooted at ["/"].  In particular [doc.docx] inside the root-level
    folder [F] gets ["/F/doc.docx"], and next to [F] it gets ["/doc.docx"]. *)
Theorem path_derivation :
  (∀ (w : World) (site_id drive_id drive_name : string) (max_items : Z)
     (root : response) (s : state),
     SharePoint.dry_run (sp s) = false →
     match get_items_in_item_recursive w site_id drive_id drive_name max_items
             None "/" None root s with
     | Ret items _ =>
         Forall (λ d, ∃ parent it,
                   entry_of "/" root parent it
                   ∧ Details.id d = item_id_of it
                   ∧ Details.name d = item_name_of it
                   ∧ Details.path d = child_path parent (Details.name d))
           items
     | Raise _ _ => True
     | Timeout _ => False
     end)
  ∧ named_paths
      (get_items_in_item_recursive
         (example_world [] readable store_accepts) "site" "D" "Documents" (-1)
         None "/" None root_nested (initial_state false false))
    = Some [("F", "/F"); ("F", "/F"); ("doc.docx", "/F/doc.docx")]
  ∧ named_paths
      (get_items_in_item_recursive
         (example_world [] readable store_accepts) "site" "D" "Documents" (-1)
         None "/" None root_sibling (initial_state false false))
    = Some [("F", "/F"); ("F", "/F"); ("doc.docx", "/doc.docx")].
Proof.
  split; [|split; vm_compute; reflexivity].
  intros w site_id drive_id drive_name max_items root s Hlive.
  unfold get_items_in_item_recursive.
  assert (walker_outcome s []
            (produced_from site_id drive_id drive_name "/" root)
            (enter_folder w site_id drive_id max_items None []
               (page_requests w site_id drive_id drive_name max_items None "/" root)
               s)) as [_ Hout].
  { apply walker_outcome_enter_folder; [done|].
    intros s1 (Hdry & _). apply page_requests_produces. by rewrite Hdry. }
  destruct (enter_folder _ _ _ _ _ _ _ _) as [items s'|e s'|s']; [|done|done].
  destruct Hout as (new & -> & Hnew). cbn [app].
  eapply Forall_impl; [exact Hnew|].
  intros d (parent & it & Hentry & ->). by exists parent, it.
Qed.

(** Outside dry-run mode, whenever the visit of a folder entry returns, it
    has appended the folder's descriptor twice before anything else. *)
Lemma folder_visit_appends_twice (w : World) (site_id drive_id drive_name : string)
    (max_items : Z) (p i n : string) (m : option string) (children : response)
    (items items' : list item_details) (s s' : state) :
  SharePoint.dry_run (sp s) = false →
  visit_item w site_id drive_id drive_name max_items
    (page_requests w site_id drive_id drive_name max_items) p
    (Item i n m (Some children)) items s = Ret items' s' →
  let d := _extract_item_details (Item i n m (Some children))
             site_id drive_id drive_name p in
  ∃ rest, items' = items ++ d :: d :: rest.
Proof.
  intros Hlive Hrun d. cbn [visit_item] in Hrun. fold d in Hrun.
  assert (walker_outcome s ((items ++ [d]) ++ [d])
            (produced_from site_id drive_id drive_name (Details.path d) children)
            (Ret items' s')) as [_ (rest & -> & _)].
  { rewrite <- Hrun. apply walker_outcome_enter_folder; [done|].
    intros s1 (Hdry & _). apply page_requests_produces. by rewrite Hdry. }
  exists rest. by rewrite <- !app_assoc.
Qed.

(** C6 (what the code does).  A folder entry is appended twice: the statement
    [items_list.append(item_details)] is run for every entry and once more
    under [if item_details['is_folder']:].  A root page with the folder [F1]
    and the file [D1] yields three descriptors, two of them for [F1]. *)
Theorem folder_descriptor_appended_twice :
  option_map (map Details.id)
    (returned
       (get_items_in_item_recursive
          (example_world [] readable store_accepts) "site" "D" "Documents" (-1)
          None "/" None root_sibling (initial_state false false)))
  = Some ["F1"; "F1"; "D1"].
Proof. vm_compute. reflexivity. Qed.

(** C7 (what the code does).  The cap test stands before the [while url:]
    loop, not inside it, so it is not looked at between the pages of a
    folder.  With [max_items = 2] and a root folder in three pages, the first
    two of which hold the three whitelisted files [a.txt], [b.txt] and
    [c.txt], the third page is requested all the same and its file is
    returned too: the call makes three page requests and returns four
    whitelisted files. *)
Theorem soft_cap_requests_third_page :
  ∃ items s,
    get_items_in_item_recursive
      (example_world [] readable store_accepts) "site" "D" "Documents" 2
      None "/" None root_three_pages (initial_state false false)
    = Ret items s
    ∧ map Details.name items = ["a.txt"; "b.txt"; "c.txt"; "d.txt"]
    ∧ length (List.filter
                (is_whitelisted_file (SharePoint.white_list_file_extensions (sp s)))
                items) = 4
    ∧ page_request_count (trace s) = 3.
Proof.
  eexists _, _. split; [vm_compute; reflexivity|].
  repeat split; vm_compute; reflexivity.
Qed.

(** ** Whole runs *)

(** C3 (what the code does).  The flush test sits under [if content:], so a
    last item without content flushes nothing: [run_with_denied_last_item]
    completes normally, the drive is marked processed, and the chunks of [b] and [c] are
    still in the buffer; the store holds the chunk of [a] only. *)
Theorem completion_leaves_buffer_unflushed :
  ∃ c s,
    run_with_denied_last_item = Ret c s
    ∧ map page_content (Locals.combined_chunks c) = ["text of b"; "text of c"]
    ∧ map (map page_content) (vstore s) = [["text of a"]]
    ∧ fs s !! ".tmp_processed_drives" = Some [IdLine "D"].
Proof.
  eexists _, _. split; [vm_compute; reflexivity|].
  repeat split; vm_compute; reflexivity.
Qed.

(** The completion flush is also missed when the whitelisted drive is not
    the last one in name order: no item of it is "the last item of the last
    drive", and the drive after it is skipped before anything is flushed. *)
Lemma completion_flush_missed_before_skipped_drive :
  ∃ c s,
    run_with_trailing_drive = Ret c s
    ∧ map page_content (Locals.combined_chunks c)
      = ["text of b"; "text of c"; "text of d"]
    ∧ map (map page_content) (vstore s) = [["text of a"]].
Proof.
  eexists _, _. split; [vm_compute; reflexivity|].
  split; vm_compute; reflexivity.
Qed.

(** C1, the claim refuted.  In [run_with_denied_last_item] the ID of [b] is
    appended to the processed-items log when no store write has held its
    chunk (none ever does), and the ID of [d], which produced no content, is
    never appended. *)
Lemma checkpoint_without_flush :
  ¬ flushed_before_marked ".tmp_processed_items"
      (trace (final_state run_with_denied_last_item))
  ∧ marked_in_trace ".tmp_processed_items" "d"
      (trace (final_state run_with_denied_last_item)) = false.
Proof.
  split; [|vm_compute; reflexivity].
  intros Hclaim.
  destruct (Hclaim
    [PostToken GrantPassword; PostToken GrantClientCredentials;
     GetSite "site name"; GetDrives "site";
     GetChildren "D" None; GetChildren "D" None; GetChildren "D" None;
     GetContent "D" "a" 200; AddDocuments [example_chunk "a"] true;
     AppendLine ".tmp_processed_items" (IdLine "a"); GetContent "D" "b" 200]
    [GetContent "D" "c" 200; AppendLine ".tmp_processed_items" (IdLine "c");
     GetContent "D" "d" 403; AppendLine ".tmp_processed_drives" (IdLine "D");
     RemoveFile ".tmp_processed_items"]
    "b") as (chunks & c & Hin & Hc & Hid); [vm_compute; reflexivity|].
  repeat (apply elem_of_cons in Hin as [Hin|Hin]; [try discriminate|]).
  - injection Hin as ->.
    apply elem_of_cons in Hc as [->|Hc]; [discriminate|].
    by apply elem_of_nil in Hc.
  - by apply elem_of_nil in Hin.
Qed.

(** ** The theorems at concrete inputs *)

Lemma subtree_pruning_witness :
  get_items_in_item_recursive
    (example_world [] readable store_accepts) "site" "D" "Documents" (-1)
    None "/" (Some three_collected) root_three_pages resumed_state
  = Ret three_collected resumed_state.
Proof.
  apply (subtree_pruning (example_world [] readable store_accepts)
           "site" "D" "Documents" (-1) None "/" (Some three_collected)).
  left. exists [IdLine "D"].
  split; [vm_compute; reflexivity|constructor].
Defined.

Lemma idempotent_resume_witness :
  get_item_content (example_world [] readable store_accepts) 5
    "site" "D" "a" "a.txt" "/a.txt" "Documents" false resumed_state
  = Ret None resumed_state.
Proof.
  apply idempotent_resume. exists [IdLine "a"].
  split; [vm_compute; reflexivity|constructor].
Defined.

Lemma ingest_bounded_retry_witness :
  ingest_chunks_with_embeddings_to_astra_db
    (example_world [] readable store_flaky) [example_chunk "a"]
    (initial_state false false)
  = Ret (Some ["a"])
      (with_vstore (λ b, b ++ [[example_chunk "a"]])
         (add_events
            (failed_attempts [example_chunk "a"] 10 1
             ++ [AddDocuments [example_chunk "a"] true])
            (initial_state false false)))
  ∧ ingest_chunks_with_embeddings_to_astra_db
      (example_world [] readable store_refuses) [example_chunk "a"]
      (initial_state false false)
    = Raise StoreWriteFailed
        (add_events
           (failed_attempts [example_chunk "a"] 10 2
            ++ [AddDocuments [example_chunk "a"] false])
           (initial_state false false)).
Proof.
  split.
  - apply (proj1 (ingest_bounded_retry (example_world [] readable store_flaky)
                    [example_chunk "a"] (initial_state false false) eq_refl)
             1 ["a"]).
    + vm_compute. lia.
    + intros j Hj. destruct j; [reflexivity|lia].
    + reflexivity.
  - apply (proj1 (proj2 (ingest_bounded_retry
                            (example_world [] readable store_refuses)
                            [example_chunk "a"] (initial_state false false)
                            eq_refl))).
    + vm_compute. lia.
    + intros j Hj. reflexivity.
Defined.

Lemma get_item_content_retries_without_bound_witness :
  (∃ s',
     get_item_content_loop (example_world [] server_error store_accepts) 4
       "site" "D" "x" "/x.txt" "Documents" false 0%Z (initial_state false false)
     = Timeout s'
     ∧ SharePoint.api_call_count (sp s') = 0 + 4
     ∧ error_log s'
       = error_log (initial_state false false)
         ++ replicate 4
              (ErrorLine (ErrorDetails "site" "D" "x" "Documents" "/x.txt")))
  ∧ ∀ content s',
      get_item_content (example_world [] server_error store_accepts) 4
        "site" "D" "x" "x.txt" "/x.txt" "Documents" false
        (initial_state false false)
      ≠ Ret content s'.
Proof.
  assert (Hfail : persistently_failing
                    (example_world [] server_error store_accepts) "D" "x")
    by (intros n; split; discriminate).
  destruct (get_item_content_retries_without_bound
              (example_world [] server_error store_accepts) 4
              "site" "D" "x" "x.txt" "/x.txt" "Documents"
              (initial_state false false) Hfail eq_refl) as [Hloop Hnever].
  split; [exact Hloop|].
  apply Hnever; [reflexivity|].
  intros (lines & Hfile & _). discriminate Hfile.
Defined.

Lemma soft_cap_on_entry_witness :
  let o := get_items_in_item_recursive
             (example_world [] readable store_accepts) "site" "D" "Documents" 2
             (Some "F1") "/F" (Some three_collected) root_three_pages
             (initial_state false false) in
  token_exchanges_only (initial_state false false) (final_state o)
  ∧ match o with
    | Ret returned _ => returned = three_collected
    | Raise e _ => is_auth_failure e
    | Timeout _ => False
    end.
Proof.
  apply soft_cap_on_entry.
  - reflexivity.
  - reflexivity.
  - vm_compute. reflexivity.
Defined.

Lemma path_derivation_witness :
  match get_items_in_item_recursive
          (example_world [] readable store_accepts) "site" "D" "Documents" (-1)
          None "/" None root_nested (initial_state false false) with
  | Ret items _ =>
      Forall (λ d, ∃ parent it,
                entry_of "/" root_nested parent it
                ∧ Details.id d = item_id_of it
                ∧ Details.name d = item_name_of it
                ∧ Details.path d = child_path parent (Details.name d))
        items
  | Raise _ _ => True
  | Timeout _ => False
  end.
Proof.
  apply (proj1 path_derivation). reflexivity.
Defined.

Lemma checkpoint_follows_accumulation_witness :
  let w := example_world [bid_drive root_three_pages] readable store_accepts in
  let d := bid_drive root_three_pages in
  let s := initial_state false false in
  let s1 := final_state
              (get_item_content w 5 "site" "D" "a" "a.txt" "/a.txt"
                 "SBX - Bid Respository" false s) in
  match process_item w 5 "site" 10 d true 4 0 first_item (Locals.Build 0 0 0 []) s with
  | Ret c' s' =>
      Locals.total_processed_items c' = 1%Z
      ∧ ∃ s2,
          s' = after_mark ".tmp_processed_items" "a" s2
          ∧ Locals.combined_chunks c' = []
          ∧ fs s2 = fs s1
          ∧ vstore s2 = vstore s1 ++ [[example_chunk "a"]]
          ∧ ∃ evs, trace s2 = trace s1 ++ evs ++ [AddDocuments [example_chunk "a"] true]
  | Raise _ s' => fs s' = fs s1 ∧ vstore s' = vstore s1
  | Timeout _ => False
  end.
Proof.
  intros w d s s1.
  exact (checkpoint_follows_accumulation w 5 "site" 10 d true 4 0 first_item
           (Locals.Build 0 0 0 []) s s1 (Some "text of a") eq_refl).
Defined.

Lemma dry_run_flush_raises_type_error_witness :
  ingest_chunks_with_embeddings_to_astra_db
    (example_world [] readable store_accepts) [example_chunk "a"]
    (initial_state false true)
  = Ret None (initial_state false true)
  ∧ ingest_item (example_world [] readable store_accepts) "site" 10
      (bid_drive root_three_pages) false first_item "text of a"
      (Locals.Build 0 0 0 []) (initial_state false true)
    = Raise TypeError (initial_state false true).
Proof.
  split.
  - apply (proj1 dry_run_flush_raises_type_error). reflexivity.
  - apply (proj1 (proj2 dry_run_flush_raises_type_error)).
    + reflexivity.
    + discriminate.
    + left. reflexivity.
Defined.

(** * Further properties of the code *)

(** ** CheckpointStore *)

(** X1. Appending an [id] of printable ASCII characters, which holds no
    line break, to [file] makes [has_been_processed(file, id)] true, whether
    or not the file existed, and changes no other answer: for every file and
    ID the answer after the append is the answer before it, or the pair is
    the one that was appended.  (An ID with a line break is written as two
    lines and read back as two IDs; it is outside the model, see [line].) *)
Theorem mark_then_has_been_processed (s : state) (file id file' id' : string) :
  printable_ascii id = true →
  returned (has_been_processed file' (Some id')
              (final_state (mark_item_as_processed file id s)))
  = Some (log_has s file' (Some id')
          || (String.eqb file' file && String.eqb id' id)).
Proof.
  intros _.
  unfold mark_item_as_processed, append_line, has_been_processed. run_state.
  cbn [final_state returned]. f_equal. unfold log_has. cbn [fs].
  destruct (String.eqb_spec file' file) as [->|Hne].
  - rewrite lookup_insert_eq. cbn [andb].
    destruct (fs s !! file) as [lines|]; cbn [default from_option].
    + rewrite existsb_app. cbn. by rewrite orb_false_r.
    + cbn. by rewrite orb_false_r.
  - rewrite lookup_insert_ne by done. cbn [andb]. by rewrite orb_false_r.
Qed.

Lemma mark_then_has_been_processed_witness :
  returned (has_been_processed ".tmp_processed_items" (Some "b")
              (final_state
                 (mark_item_as_processed ".tmp_processed_items" "b" resumed_state)))
  = Some (log_has resumed_state ".tmp_processed_items" (Some "b")
          || (String.eqb ".tmp_processed_items" ".tmp_processed_items"
              && String.eqb "b" "b")).
Proof.
  apply (mark_then_has_been_processed resumed_state ".tmp_processed_items" "b"
           ".tmp_processed_items" "b").
  reflexivity.
Defined.

(** X2. After [clear_processed_items_record(file)] no ID is found in [file];
    every other file is as before; and on a file that does not exist the call
    changes nothing. *)
Theorem clear_processed_items_record_forgets (s : state) (file : string) :
  let s' := final_state (clear_processed_items_record file s) in
  (∀ id, log_has s' file id = false)
  ∧ (∀ file', file' ≠ file → fs s' !! file' = fs s !! file')
  ∧ (fs s !! file = None → s' = s).
Proof.
  unfold clear_processed_items_record. run_state.
  destruct (fs s !! file) as [lines|] eqn:Hfile; cbn [final_state].
  - split; [|split].
    + intros id. unfold log_has. cbn [fs]. by rewrite lookup_delete_eq.
    + intros file' Hne. cbn [fs]. by rewrite lookup_delete_ne.
    + done.
  - split; [|split].
    + intros id. unfold log_has. by rewrite Hfile.
    + done.
    + done.
Qed.

(** ** TokenManager *)

Lemma check_token_valid (w : World) (s : state) :
  SharePoint.dry_run (sp s) = false →
  (clock w (length (trace s)) < SharePoint.token_user_expiry (sp s))%Z →
  (clock w (length (trace s)) < SharePoint.token_admin_expiry (sp s))%Z →
  check_token w s = Ret tt s.
Proof.
  intros Hlive Huser Hadmin. unfold check_token, now. run_state.
  rewrite Hlive.
  apply Z.leb_gt in Huser, Hadmin. by rewrite Huser, Hadmin.
Qed.

(** X3. Outside dry-run mode, while both tokens expire after the current
    time, [check_token] does nothing: no exchange, no change of state. *)
Theorem check_token_keeps_valid_tokens (w : World) (s : state) :
  SharePoint.dry_run (sp s) = false →
  (clock w (length (trace s)) < SharePoint.token_user_expiry (sp s))%Z →
  (clock w (length (trace s)) < SharePoint.token_admin_expiry (sp s))%Z →
  check_token w s = Ret tt s.
Proof. apply check_token_valid. Qed.

Lemma check_token_keeps_valid_tokens_witness :
  check_token (example_world [] readable store_accepts) (state_with_tokens 1000)
  = Ret tt (state_with_tokens 1000).
Proof.
  apply (check_token_keeps_valid_tokens (example_world [] readable store_accepts)
           (state_with_tokens 1000)); reflexivity.
Defined.

(** ** Drive discovery *)

Lemma insert_by_name_perm (d : drive) (l : list drive) :
  insert_by_name d l ≡ₚ d :: l.
Proof.
  induction l as [|d' l IH]; [done|]. cbn [insert_by_name].
  destruct (String.leb _ _); [done|].
  rewrite IH. apply Permutation_swap.
Qed.

(** ** Environment variables *)

Lemma lookup_env_dict (environ : gmap string string) (vars : list string)
    (var : string) :
  (list_to_map ((λ var, (var, environ !! var)) <$> vars)
     : gmap string (option string)) !! var
  = if decide (var ∈ vars) then Some (environ !! var) else None.
Proof.
  induction vars as [|v vars IH]; cbn [fmap list_fmap list_to_map foldr].
  - rewrite lookup_empty. by rewrite decide_False by apply not_elem_of_nil.
  - cbn. destruct (decide (v = var)) as [->|Hne].
    + rewrite lookup_insert_eq. by rewrite decide_True by apply list_elem_of_here.
    + rewrite lookup_insert_ne by done. rewrite IH.
      destruct (decide (var ∈ vars)) as [Hin|Hnin].
      * by rewrite decide_True by by apply list_elem_of_further.
      * rewrite decide_False; [done|].
        intros [->|Hin]%elem_of_cons; done.
Qed.

Lemma get_env_vars_None (environ : gmap string string) (vars : list string) :
  get_env_vars environ vars = None
  ↔ ∃ var, var ∈ vars ∧ env_var_missing environ var = true.
Proof.
  unfold get_env_vars.
  destruct (List.filter _ vars) as [|v missing] eqn:Hfilter.
  - split; [done|]. intros (var & Hin & Hmissing).
    assert (In var (List.filter (env_var_missing environ) vars)) as Hin'
      by (apply filter_In; split; [by apply list_elem_of_In|done]).
    by rewrite Hfilter in Hin'.
  - split; [|done]. intros _. exists v.
    assert (In v (List.filter (env_var_missing environ) vars)) as Hin
      by (rewrite Hfilter; by left).
    apply filter_In in Hin as [Hin Hmissing].
    split; [by apply list_elem_of_In|done].
Qed.

(** X5. [get_env_vars] returns [None] exactly when one of the required
    variables is unset or empty; otherwise the dictionary it returns has
    exactly the required names as keys, each with a non-empty value, the one
    the environment gives it. *)
Theorem get_env_vars_spec (environ : gmap string string) (vars : list string) :
  (get_env_vars environ vars = None
   ↔ ∃ var, var ∈ vars ∧ env_var_missing environ var = true)
  ∧ ∀ d, get_env_vars environ vars = Some d →
      ∀ var,
        if decide (var ∈ vars)
        then ∃ a value, environ !! var = Some (String a value)
                        ∧ d !! var = Some (Some (String a value))
        else d !! var = None.
Proof.
  split; [apply get_env_vars_None|].
  intros d Hd var.
  assert (∀ v, v ∈ vars → env_var_missing environ v = false) as Hset.
  { intros v Hin. destruct (env_var_missing environ v) eqn:Hmissing; [|done].
    assert (get_env_vars environ vars = None) as Hnone
      by (apply get_env_vars_None; eauto).
    congruence. }
  unfold get_env_vars in Hd.
  destruct (List.filter _ vars); [|done]. injection Hd as <-.
  rewrite lookup_env_dict.
  destruct (decide (var ∈ vars)) as [Hin|Hnin]; [|done].
  specialize (Hset var Hin). unfold env_var_missing in Hset.
  destruct (environ !! var) as [[|a value]|]; try done. by exists a, value.
Qed.

(** X6. When the check of [main] (non-secure mode) has passed, the check
    that [initialize_handlers] repeats on its own list cannot fail, in any
    environment: its list is part of the list of [main].  The branch
    [return None, None] of [initialize_handlers] is not reached from
    [main]. *)
Theorem initialize_handlers_check_passes (environ : gmap string string)
    (d : gmap string (option string)) :
  get_env_vars environ main_required_env_vars = Some d →
  ∃ d', get_env_vars environ handlers_required_env_vars = Some d'.
Proof.
  intros Hmain.
  destruct (get_env_vars environ handlers_required_env_vars) as [d'|] eqn:Hh;
    [by exists d'|].
  apply get_env_vars_None in Hh as (var & Hin & Hmissing).
  assert (get_env_vars environ main_required_env_vars = None) as Hnone.
  { apply get_env_vars_None. exists var. split; [|done].
    revert Hin. unfold handlers_required_env_vars, main_required_env_vars.
    rewrite !elem_of_cons, !elem_of_nil. intros H.
    repeat (destruct H as [->|H]; [tauto|]). done. }
  congruence.
Qed.

Lemma initialize_handlers_check_passes_witness :
  ∃ d', get_env_vars full_environ handlers_required_env_vars = Some d'.
Proof.
  apply (initialize_handlers_check_passes full_environ
           (list_to_map ((λ var, (var, full_environ !! var))
                           <$> main_required_env_vars))).
  vm_cast_no_check
    (eq_refl (Some (list_to_map ((λ var, (var, full_environ !! var))
                                   <$> main_required_env_vars)
                      : gmap string (option string)))).
Defined.

(** ** BlobStorageHandler *)










(** ** Extensions and the whitelist *)

Lemma substring_whole (p : string) : String.substring 0 (String.length p) p = p.
Proof.
  induction p as [|a p IH]; [done|].
  cbn [String.length String.substring]. by rewrite IH.
Qed.

Lemma substring_suffix (p : string) :
  ∀ n, ∃ root, p = root +:+ String.substring n (String.length p - n) p.
Proof.
  induction p as [|a p IH]; intros n.
  - exists "". by destruct n.
  - destruct n as [|n].
    + exists "". rewrite Nat.sub_0_r, substring_whole. done.
    + destruct (IH n) as [root Hroot]. exists (String a root).
      assert (String.substring (S n) (String.length (String a p) - S n) (String a p)
              = String.substring n (String.length p - n) p) as -> by reflexivity.
      exact (f_equal (String a) Hroot).
Qed.

Lemma append_empty (p : string) : p +:+ "" = p.
Proof. induction p as [|a p IH]; [done|]. exact (f_equal (String a) IH). Qed.

Lemma splitext_ext_suffix (p : string) : ∃ root, p = root +:+ splitext_ext p.
Proof.
  unfold splitext_ext. destruct (_ && _).
  - apply substring_suffix.
  - exists p. by rewrite append_empty.
Qed.

(** X10. A descriptor that passes the filter [not d['is_folder'] and
    d['extension'] in white_list] describes a file, not a folder, and its
    name ends with one of the extensions of the whitelist. *)
Theorem whitelisted_name_ends_with_extension (white_list : list string)
    (it : item) (site_id drive_id drive_name path : string) :
  is_whitelisted_file white_list
    (_extract_item_details it site_id drive_id drive_name path) = true →
  item_folder_of it = None
  ∧ ∃ root e, e ∈ white_list ∧ item_name_of it = root +:+ e.
Proof.
  unfold is_whitelisted_file, extension_in, _extract_item_details.
  cbn [Details.is_folder Details.extension].
  destruct (item_folder_of it) as [children|]; cbn [negb andb]; [done|].
  intros Hin. split; [done|].
  apply existsb_exists in Hin as (e & Hin & Heq).
  apply String.eqb_eq in Heq. subst e.
  destruct (splitext_ext_suffix (item_name_of it)) as [root Hroot].
  exists root, (splitext_ext (item_name_of it)).
  split; [by apply list_elem_of_In|done].
Qed.

Lemma whitelisted_name_ends_with_extension_witness :
  item_folder_of (file_item "a" "a.txt") = None
  ∧ ∃ root e, e ∈ SharePoint.white_list_file_extensions (SharePointHandler_init false)
              ∧ item_name_of (file_item "a" "a.txt") = root +:+ e.
Proof.
  apply (whitelisted_name_ends_with_extension
           (SharePoint.white_list_file_extensions (SharePointHandler_init false))
           (file_item "a" "a.txt") "site" "D" "SBX - Bid Respository" "/").
  reflexivity.
Defined.

(** ** Invariants of the operations *)

Lemma bind_get {B} (k : state → M B) (s : state) : bind get k s = k s s.
Proof. reflexivity. Qed.

Lemma bind_gets {A B} (f : state → A) (k : A → M B) (s : state) :
  bind (gets f) k s = k (f s) s.
Proof. reflexivity. Qed.

Lemma bind_modify {B} (f : state → state) (k : unit → M B) (s : state) :
  bind (modify f) k s = k tt (f s).
Proof. reflexivity. Qed.

Lemma bind_ret {A B} (a : A) (k : A → M B) (s : state) : bind (ret a) k s = k a s.
Proof. reflexivity. Qed.

Lemma bind_emit {B} (e : event) (k : unit → M B) (s : state) :
  bind (emit e) k s = k tt (add_events [e] s).
Proof. reflexivity. Qed.

Lemma bind_request {B} (e : event) (k : unit → M B) (s : state) :
  bind (emit e) (λ _, bind (modify (with_sp bump_api_call_count)) k) s
  = k tt (after_request e s).
Proof. reflexivity. Qed.

Section Invariant.
Context (R : state → state → Prop) (E : event → Prop) (s0 : state).
Hypothesis R_request :
  ∀ s e, E e → is_request e = true → R s0 s → R s0 (after_request e s).
Hypothesis R_token_user :
  ∀ s tok t, R s0 s → R s0 (with_sp (set_token_user tok t) s).
Hypothesis R_token_admin :
  ∀ s tok t, R s0 s → R s0 (with_sp (set_token_admin tok t) s).
Hypothesis E_token : ∀ g, E (PostToken g).

Lemma kept_bind {A B} (c : M A) (k : A → M B) (s : state) :
  kept R s0 (c s) →
  (∀ a s1, R s0 s1 → kept R s0 (k a s1)) →
  kept R s0 (bind c k s).
Proof using Type.
  unfold kept, bind. intros Hc Hk.
  destruct (c s) as [a s1|e s1|s1]; cbn in *; [by apply Hk|done|done].
Qed.

Lemma kept_for_each {A B} (body : A → B → M B) (l : list A) :
  Forall (λ x, ∀ acc s, R s0 s → kept R s0 (body x acc s)) l →
  ∀ acc s, R s0 s → kept R s0 (for_each body l acc s).
Proof using Type.
  induction 1 as [|x l Hx _ IH]; intros acc s HR; cbn [for_each]; [done|].
  apply kept_bind; [by apply Hx|]. intros acc' s1 HR1. by apply IH.
Qed.

Lemma kept_for_enumerate {A B} (body : nat → A → B → M B) (l : list A) :
  (∀ idx x acc s, R s0 s → kept R s0 (body idx x acc s)) →
  ∀ idx acc s, R s0 s → kept R s0 (for_enumerate body idx l acc s).
Proof using Type.
  intros Hbody. induction l as [|x l IH]; intros idx acc s HR;
    cbn [for_enumerate]; [done|].
  apply kept_bind; [by apply Hbody|]. intros acc' s1 HR1. by apply IH.
Qed.

Lemma kept_post_token (w : World) (g : grant) (s : state) :
  R s0 s → kept R s0 (post_token w g s).
Proof using R_request E_token.
  intros HR. unfold post_token. rewrite bind_get. cbn zeta.
  rewrite bind_request. by apply R_request.
Qed.

Lemma kept_init_auth_token_with_username_password (w : World) (s : state) :
  R s0 s → kept R s0 (init_auth_token_with_username_password w s).
Proof using All.
  intros HR. unfold init_auth_token_with_username_password. rewrite bind_get.
  destruct (SharePoint.dry_run (sp s)); [done|].
  apply kept_bind; [by apply kept_post_token|]. intros response s1 HR1.
  destruct (tr_status response =? 200)%Z; [|done].
  unfold now. rewrite bind_gets. by apply R_token_user.
Qed.

Lemma kept_init_auth_token_app_only (w : World) (s : state) :
  R s0 s → kept R s0 (init_auth_token_app_only w s).
Proof using All.
  intros HR. unfold init_auth_token_app_only. rewrite bind_get.
  destruct (SharePoint.dry_run (sp s)); [done|].
  apply kept_bind; [by apply kept_post_token|]. intros response s1 HR1.
  destruct (tr_status response =? 200)%Z; [|done].
  unfold now. rewrite bind_gets. by apply R_token_admin.
Qed.

Lemma kept_check_token (w : World) (s : state) :
  R s0 s → kept R s0 (check_token w s).
Proof using All.
  intros HR. unfold check_token. rewrite bind_get.
  destruct (SharePoint.dry_run (sp s)); [done|].
  unfold now. rewrite bind_gets.
  apply kept_bind.
  { destruct (_ <=? _)%Z;
      [by apply kept_init_auth_token_with_username_password|done]. }
  intros _ s1 HR1. rewrite bind_get, bind_gets.
  destruct (_ <=? _)%Z; [by apply kept_init_auth_token_app_only|done].
Qed.

Lemma kept_get_site_id_by_site_name (w : World) (site_name : string) (s : state) :
  E (GetSite site_name) →
  R s0 s → kept R s0 (get_site_id_by_site_name w site_name s).
Proof using All.
  intros HE HR. unfold get_site_id_by_site_name.
  apply kept_bind; [by apply kept_check_token|]. intros _ s1 HR1.
  rewrite bind_get. destruct (SharePoint.dry_run (sp s1)); [done|].
  cbn zeta. rewrite bind_request.
  destruct (_ =? 200)%Z; by apply R_request.
Qed.

Lemma kept_get_drives_by_site_id (w : World) (site : string) (s : state) :
  E (GetDrives site) →
  R s0 s → kept R s0 (get_drives_by_site_id w site s).
Proof using All.
  intros HE HR. unfold get_drives_by_site_id.
  apply kept_bind; [by apply kept_check_token|]. intros _ s1 HR1.
  rewrite bind_get. destruct (SharePoint.dry_run (sp s1)); [done|].
  cbn zeta. rewrite bind_request.
  destruct (_ =? 200)%Z; by apply R_request.
Qed.

Lemma kept_enter_folder (w : World) (site_id drive_id : string) (max_items : Z)
    (item_id : option string) (items : list item_details)
    (k : list item_details → M (list item_details)) (s : state) :
  (∀ s1, R s0 s1 → kept R s0 (k items s1)) →
  R s0 s →
  kept R s0 (enter_folder w site_id drive_id max_items item_id items k s).
Proof using All.
  intros Hk HR. rewrite enter_folder_unfold.
  destruct (log_has s _ (Some drive_id)); [done|].
  destruct (log_has s _ item_id); [done|].
  pose proof (kept_check_token w s HR) as Htok. unfold kept in Htok |- *.
  destruct (check_token w s) as [[] s1|e s1|s1]; cbn in Htok; [|done|done].
  destruct (SharePoint.dry_run (sp s1)); [done|].
  destruct (andb _ _); [done|]. by apply Hk.
Qed.

Lemma kept_page_requests (w : World) (site_id drive_id drive_name : string)
    (max_items : Z) (r : response) :
  (∀ folder, E (GetChildren drive_id folder)) →
  ∀ item_id p items s, R s0 s →
    kept R s0 (page_requests w site_id drive_id drive_name max_items
                 item_id p r items s).
Proof using All.
  intros HE.
  apply (response_item_ind
    (λ it, ∀ p items s, R s0 s →
       kept R s0 (visit_item w site_id drive_id drive_name max_items
                    (page_requests w site_id drive_id drive_name max_items)
                    p it items s))
    (λ r, ∀ item_id p items s, R s0 s →
       kept R s0 (page_requests w site_id drive_id drive_name max_items
                    item_id p r items s))).
  - intros i n m p items s HR. done.
  - intros i n m children IH p items s HR. cbn [visit_item].
    apply kept_enter_folder; [|done]. intros s1 HR1. by apply IH.
  - intros status value Hvalue item_id p items s HR.
    cbn [page_requests]. rewrite bind_request.
    assert (R s0 (after_request (GetChildren drive_id item_id) s)) as HR1
      by by apply R_request.
    destruct (status =? 200)%Z; [|done].
    apply kept_bind; [|done].
    apply kept_for_each; [|done].
    eapply Forall_impl; [exact Hvalue|]. intros it Hit acc s1. apply Hit.
  - intros status value r' Hvalue IH item_id p items s HR.
    cbn [page_requests]. rewrite bind_request.
    assert (R s0 (after_request (GetChildren drive_id item_id) s)) as HR1
      by by apply R_request.
    destruct (status =? 200)%Z; [|done].
    apply kept_bind; [|intros items' s1 HR2; by apply IH].
    apply kept_for_each; [|done].
    eapply Forall_impl; [exact Hvalue|]. intros it Hit acc s1. apply Hit.
Qed.

Lemma kept_get_items_in_item_recursive (w : World)
    (site_id drive_id drive_name : string) (max_items : Z)
    (item_id : option string) (path : string)
    (items_list : option (list item_details)) (listing : response) (s : state) :
  (∀ folder, E (GetChildren drive_id folder)) →
  R s0 s →
  kept R s0 (get_items_in_item_recursive w site_id drive_id drive_name max_items
               item_id path items_list listing s).
Proof using All.
  intros HE HR. unfold get_items_in_item_recursive.
  apply kept_enter_folder; [|done]. intros s1 HR1. by apply kept_page_requests.
Qed.
End Invariant.

(** ** What a run keeps *)

Lemma request_count_app (tr tr' : list event) :
  request_count (tr ++ tr') = request_count tr + request_count tr'.
Proof. unfold request_count. by rewrite List.filter_app, length_app. Qed.

Lemma request_count_one (e : event) :
  request_count [e] = if is_request e then 1 else 0.
Proof. unfold request_count. cbn. by destruct (is_request e). Qed.

Lemma reachable_refl (s : state) : reachable s s.
Proof.
  split; [apply same_config_refl|]. split; [|done].
  exists []. by rewrite app_nil_r, Nat.add_0_r.
Qed.

Lemma reachable_request (s0 s : state) (e : event) :
  is_request e = true → reachable s0 s → reachable s0 (after_request e s).
Proof.
  intros He (Hcfg & (evs & Htr & Hcalls) & Hstore & Hlogs).
  split; [done|]. split; [|done].
  exists (evs ++ [e]). cbn [after_request trace sp bump_api_call_count
    SharePoint.api_call_count].
  split; [by rewrite Htr, app_assoc|].
  rewrite request_count_app, request_count_one, He.
  cbn [SharePoint.api_call_count] in *. lia.
Qed.

Lemma reachable_event (s0 s : state) (e : event) :
  is_request e = false → reachable s0 s → reachable s0 (add_events [e] s).
Proof.
  intros He (Hcfg & (evs & Htr & Hcalls) & Hstore & Hlogs).
  split; [done|]. split; [|done].
  exists (evs ++ [e]). cbn [add_events trace sp].
  split; [by rewrite Htr, app_assoc|].
  rewrite request_count_app, request_count_one, He.
  cbn [SharePoint.api_call_count] in *. lia.
Qed.

Lemma reachable_token_user (s0 s : state) (tok : string) (t : Z) :
  reachable s0 s → reachable s0 (with_sp (set_token_user tok t) s).
Proof.
  intros (Hcfg & Hcalls & Hstore & Hlogs).
  split; [exact Hcfg|]. split; [exact Hcalls|]. split; [exact Hstore|exact Hlogs].
Qed.

Lemma reachable_token_admin (s0 s : state) (tok : string) (t : Z) :
  reachable s0 s → reachable s0 (with_sp (set_token_admin tok t) s).
Proof.
  intros (Hcfg & Hcalls & Hstore & Hlogs).
  split; [exact Hcfg|]. split; [exact Hcalls|]. split; [exact Hstore|exact Hlogs].
Qed.

Lemma reachable_append_line (s0 s : state) (file : string) (l : line) :
  reachable s0 s → kept reachable s0 (append_line file l s).
Proof.
  intros HR. unfold append_line. rewrite bind_modify. unfold kept, emit, modify.
  cbn [final_state].
  apply (reachable_event s0 _ (AppendLine file l)); [done|].
  destruct HR as (Hcfg & Hcalls & Hstore & Hlogs).
  split; [done|]. split; [done|]. split; [done|].
  intros f Hf. cbn [with_fs fs]. etrans; [by apply Hlogs|].
  destruct (decide (file = f)) as [->|Hne].
  - rewrite lookup_insert_eq. cbn. by apply prefix_app_r.
  - by rewrite lookup_insert_ne.
Qed.

Lemma reachable_clear_items (s0 s : state) :
  reachable s0 s →
  kept reachable s0
    (clear_processed_items_record (SharePoint.processed_items_file (sp s0)) s).
Proof.
  intros HR. unfold clear_processed_items_record. rewrite bind_get.
  destruct (fs s !! _) as [lines|] eqn:Hfile; [|done].
  rewrite bind_modify. unfold kept, emit, modify. cbn [final_state].
  apply (reachable_event s0 _ (RemoveFile _)); [done|].
  destruct HR as (Hcfg & Hcalls & Hstore & Hlogs).
  split; [done|]. split; [done|]. split; [done|].
  intros f Hf. cbn [with_fs fs]. rewrite lookup_delete_ne by done.
  by apply Hlogs.
Qed.

Lemma reachable_vstore_add_documents (w : World) (chunks : list Document)
    (s0 s : state) :
  reachable s0 s → kept reachable s0 (vstore_add_documents w chunks s).
Proof.
  intros HR. unfold vstore_add_documents. rewrite bind_get.
  destruct (add_documents w chunks _) as [ids|].
  - rewrite bind_modify, bind_emit. unfold kept, ret. cbn [final_state].
    apply (reachable_event s0 _ (AddDocuments chunks true)); [done|].
    destruct HR as (Hcfg & Hcalls & Hstore & Hlogs).
    split; [done|]. split; [done|]. split; [|done].
    cbn [with_vstore vstore]. by apply prefix_app_r.
  - rewrite bind_emit. unfold kept, ret. cbn [final_state].
    by apply (reachable_event s0 _ (AddDocuments chunks false)).
Qed.

Lemma reachable_ingest_attempts (w : World) (chunks : list Document)
    (s0 : state) (remaining : nat) :
  ∀ attempt s, reachable s0 s →
    kept reachable s0 (ingest_attempts w remaining attempt chunks s).
Proof.
  induction remaining as [|remaining IH]; intros attempt s HR; [done|].
  rewrite ingest_attempts_unfold.
  apply (kept_bind reachable); [by apply reachable_vstore_add_documents|].
  intros [ids|] s1 HR1; [done|]. rewrite bind_get.
  destruct (_ <? _)%Z; [|done].
  unfold sleep. rewrite bind_emit. apply IH.
  by apply (reachable_event s0 _ (Sleep _)).
Qed.

Lemma reachable_ingest_chunks (w : World) (chunks : list Document) (s0 s : state) :
  reachable s0 s →
  kept reachable s0 (ingest_chunks_with_embeddings_to_astra_db w chunks s).
Proof.
  intros HR. unfold ingest_chunks_with_embeddings_to_astra_db. rewrite bind_get.
  destruct (AstraDB.dry_run (astra s)); [done|]. by apply reachable_ingest_attempts.
Qed.

Lemma reachable_get_item_content_loop (w : World)
    (site_id drive_id item_id item_path drive_name : string) (is_retry : bool)
    (s0 : state) (fuel : nat) :
  ∀ retry_count s, reachable s0 s →
    kept reachable s0
      (get_item_content_loop w fuel site_id drive_id item_id item_path
         drive_name is_retry retry_count s).
Proof.
  induction fuel as [|fuel IH]; intros retry_count s HR; [done|].
  cbn [get_item_content_loop]. rewrite bind_get.
  destruct (_ <? _)%Z; [|done].
  cbn zeta. rewrite bind_request.
  assert (reachable s0
            (after_request
               (GetContent drive_id item_id
                  (cr_status (content_endpoint w drive_id item_id (length (trace s)))))
               s)) as HR1 by by apply reachable_request.
  destruct (_ =? 200)%Z.
  { destruct (cr_text _); [done|].
    apply (kept_bind reachable); [by apply reachable_append_line|done]. }
  destruct (_ =? 403)%Z; [done|].
  apply (kept_bind reachable).
  - destruct (negb is_retry); [by apply reachable_append_line|done].
  - intros _ s1 HR2. by apply IH.
Qed.

Lemma reachable_operations (s0 : state) :
  (∀ s e, True → is_request e = true → reachable s0 s →
          reachable s0 (after_request e s))
  ∧ (∀ s tok t, reachable s0 s → reachable s0 (with_sp (set_token_user tok t) s))
  ∧ (∀ s tok t, reachable s0 s → reachable s0 (with_sp (set_token_admin tok t) s)).
Proof.
  split; [|split].
  - intros s e _. apply reachable_request.
  - intros s tok t. apply reachable_token_user.
  - intros s tok t. apply reachable_token_admin.
Qed.

Lemma reachable_check_token (w : World) (s0 s : state) :
  reachable s0 s → kept reachable s0 (check_token w s).
Proof.
  destruct (reachable_operations s0) as (H1 & H2 & H3).
  by apply (kept_check_token reachable (λ _, True)).
Qed.

Lemma reachable_get_item_content (w : World) (fuel : nat)
    (site_id drive_id item_id item_name item_path drive_name : string)
    (is_retry : bool) (s0 s : state) :
  reachable s0 s →
  kept reachable s0
    (get_item_content w fuel site_id drive_id item_id item_name item_path
       drive_name is_retry s).
Proof.
  intros HR. unfold get_item_content, has_been_processed.
  rewrite bind_get, bind_gets.
  destruct (log_has s _ _); [done|].
  apply (kept_bind reachable); [by apply reachable_check_token|].
  intros _ s1 HR1. rewrite bind_get.
  destruct (SharePoint.dry_run (sp s1)); [done|].
  by apply reachable_get_item_content_loop.
Qed.

Lemma reachable_ingest_item (w : World) (site_id : string) (bulk_item_count : Z)
    (d : drive) (last : bool) (item : item_details) (content : string)
    (c : counters) (s0 s : state) :
  reachable s0 s →
  kept reachable s0 (ingest_item w site_id bulk_item_count d last item content c s).
Proof.
  intros HR. unfold ingest_item, flush_due. cbn zeta.
  apply (kept_bind reachable).
  { by destruct (bulk_item_count =? 0)%Z. }
  intros due s1 HR1.
  apply (kept_bind reachable).
  { destruct due; [|done].
    apply (kept_bind reachable); [by apply reachable_ingest_chunks|].
    by intros [ids|] s2 HR2. }
  intros c' s2 HR2. rewrite bind_get.
  apply (kept_bind reachable); [by apply reachable_append_line|done].
Qed.

Lemma reachable_process_item (w : World) (fuel : nat) (site_id : string)
    (bulk_item_count : Z) (d : drive) (last_drive : bool) (n_items item_idx : nat)
    (item : item_details) (c : counters) (s0 s : state) :
  reachable s0 s →
  kept reachable s0
    (process_item w fuel site_id bulk_item_count d last_drive n_items
       item_idx item c s).
Proof.
  intros HR. unfold process_item.
  apply (kept_bind reachable); [by apply reachable_get_item_content|].
  intros [[|a text]|] s1 HR1; [done| |done].
  by apply reachable_ingest_item.
Qed.

Lemma reachable_get_items (w : World) (site_id drive_id drive_name : string)
    (max_items : Z) (item_id : option string) (path : string)
    (items_list : option (list item_details)) (listing : response) (s0 s : state) :
  reachable s0 s →
  kept reachable s0
    (get_items_in_item_recursive w site_id drive_id drive_name max_items
       item_id path items_list listing s).
Proof.
  destruct (reachable_operations s0) as (H1 & H2 & H3).
  by apply (kept_get_items_in_item_recursive reachable (λ _, True)).
Qed.

Lemma reachable_process_drive (w : World) (fuel : nat) (site_id : string)
    (max_items bulk_item_count : Z) (n_drives drive_idx : nat) (d : drive)
    (c : counters) (s0 s : state) :
  reachable s0 s →
  kept reachable s0
    (process_drive w fuel site_id max_items bulk_item_count n_drives
       drive_idx d c s).
Proof.
  intros HR. unfold process_drive.
  destruct (existsb _ _); [|done].
  apply (kept_bind reachable); [by apply reachable_get_items|].
  intros items s1 HR1. rewrite bind_get. cbn zeta.
  apply (kept_bind reachable).
  { apply (kept_for_enumerate reachable); [|done].
    intros idx item acc s2 HR2. by apply reachable_process_item. }
  intros c' s2 HR2. rewrite bind_get.
  apply (kept_bind reachable); [by apply reachable_append_line|].
  intros _ s3 HR3.
  apply (kept_bind reachable); [|done].
  destruct HR2 as ((_ & _ & Hitems & _) & _). rewrite Hitems.
  by apply reachable_clear_items.
Qed.

Lemma reachable_process_all (w : World) (fuel : nat) (site_name : string)
    (max_drives max_items bulk_item_count : Z) (s0 s : state) :
  reachable s0 s →
  kept reachable s0
    (process_all_sharepoint_files_by_site_name w fuel site_name max_drives
       max_items bulk_item_count s).
Proof.
  intros HR. destruct (reachable_operations s0) as (H1 & H2 & H3).
  unfold process_all_sharepoint_files_by_site_name.
  apply (kept_bind reachable).
  { by apply (kept_init_auth_token_with_username_password reachable (λ _, True)). }
  intros _ s1 HR1.
  apply (kept_bind reachable).
  { by apply (kept_get_site_id_by_site_name reachable (λ _, True)). }
  intros site_id s2 HR2.
  apply (kept_bind reachable).
  { by apply (kept_get_drives_by_site_id reachable (λ _, True)). }
  intros drives s3 HR3. cbn zeta.
  apply (kept_for_enumerate reachable); [|done].
  intros idx d acc s4 HR4. by apply reachable_process_drive.
Qed.

(** ** Operations that only make requests *)

Lemma events_only_refl (E : event → Prop) (s : state) : events_only E s s.
Proof. split; [done|]. split; [done|]. exists []. by rewrite app_nil_r. Qed.

Lemma events_only_request (E : event → Prop) (s0 s : state) (e : event) :
  E e → events_only E s0 s → events_only E s0 (after_request e s).
Proof.
  intros He (Hfs & Hstore & evs & Htr & Hevs).
  split; [done|]. split; [done|].
  exists (evs ++ [e]). cbn [after_request trace].
  split; [by rewrite Htr, app_assoc|].
  apply Forall_app. split; [done|]. by apply Forall_singleton.
Qed.

Lemma events_only_operations (E : event → Prop) (s0 : state) :
  (∀ s e, E e → is_request e = true → events_only E s0 s →
          events_only E s0 (after_request e s))
  ∧ (∀ s tok t, events_only E s0 s →
                events_only E s0 (with_sp (set_token_user tok t) s))
  ∧ (∀ s tok t, events_only E s0 s →
                events_only E s0 (with_sp (set_token_admin tok t) s)).
Proof.
  split; [|split].
  - intros s e He _. by apply events_only_request.
  - intros s tok t H. exact H.
  - intros s tok t H. exact H.
Qed.

(** X11. An enumeration reads only: whatever the answers, and whether it
    returns or raises, [get_items_in_item_recursive] leaves every file and
    the store as they are, and its effects are token exchanges and page
    requests for the drive it was called for. *)
Theorem enumeration_reads_only (w : World) (site_id drive_id drive_name : string)
    (max_items : Z) (item_id : option string) (path : string)
    (items_list : option (list item_details)) (listing : response) (s : state) :
  events_only (enumeration_event drive_id) s
    (final_state
       (get_items_in_item_recursive w site_id drive_id drive_name max_items
          item_id path items_list listing s)).
Proof.
  destruct (events_only_operations (enumeration_event drive_id) s)
    as (H1 & H2 & H3).
  apply (kept_get_items_in_item_recursive
           (events_only (enumeration_event drive_id)) (enumeration_event drive_id));
    try done.
  - intros g. left. by exists g.
  - intros folder. right. by exists folder.
  - apply events_only_refl.
Qed.

(** ** A whole run *)

(** X12. The API-call counter is exact: over a whole run, however it ends,
    the counter grows by the number of requests the run has made (token
    exchanges, site and drive lookups, page requests and downloads), failed
    ones included. *)
Theorem api_call_count_counts_requests (w : World) (fuel : nat)
    (site_name : string) (max_drives max_items bulk_item_count : Z) (s : state) :
  let s' := final_state
              (process_all_sharepoint_files_by_site_name w fuel site_name
                 max_drives max_items bulk_item_count s) in
  ∃ evs, trace s' = trace s ++ evs
         ∧ SharePoint.api_call_count (sp s')
           = SharePoint.api_call_count (sp s) + request_count evs.
Proof.
  cbn zeta.
  destruct (reachable_process_all w fuel site_name max_drives max_items
              bulk_item_count s s (reachable_refl s)) as (_ & Hcalls & _).
  exact Hcalls.
Qed.

(** X13. A run only adds to the store: however it ends, the batches the store
    held when the run started are still there, in the same order, before any
    batch the run has written. *)
Theorem store_is_append_only (w : World) (fuel : nat)
    (site_name : string) (max_drives max_items bulk_item_count : Z) (s : state) :
  vstore s `prefix_of`
    vstore (final_state
              (process_all_sharepoint_files_by_site_name w fuel site_name
                 max_drives max_items bulk_item_count s)).
Proof.
  destruct (reachable_process_all w fuel site_name max_drives max_items
              bulk_item_count s s (reachable_refl s)) as (_ & _ & Hstore & _).
  exact Hstore.
Qed.

(** X14. The checkpoint operations of a run remove or rewrite no line of the
    error log or of the processed-drives log: however the run ends, every
    file other than the processed-items log still starts with the lines it
    held when the run started.  (The file a download is staged in is outside
    the model.) *)
Theorem logs_are_append_only (w : World) (fuel : nat)
    (site_name : string) (max_drives max_items bulk_item_count : Z) (s : state)
    (file : string) :
  file ≠ SharePoint.processed_items_file (sp s) →
  default [] (fs s !! file) `prefix_of`
    default []
      (fs (final_state
             (process_all_sharepoint_files_by_site_name w fuel site_name
                max_drives max_items bulk_item_count s)) !! file).
Proof.
  destruct (reachable_process_all w fuel site_name max_drives max_items
              bulk_item_count s s (reachable_refl s)) as (_ & _ & _ & Hlogs).
  exact (Hlogs file).
Qed.

Lemma logs_are_append_only_witness :
  default [] (fs resumed_state !! ".tmp_processed_drives") `prefix_of`
    default []
      (fs (final_state
             (process_all_sharepoint_files_by_site_name
                (example_world [bid_drive root_three_pages] readable store_accepts)
                5 "site name" (-1) (-1) 10 resumed_state))
         !! ".tmp_processed_drives").
Proof.
  apply (logs_are_append_only
           (example_world [bid_drive root_three_pages] readable store_accepts)
           5 "site name" (-1) (-1) 10 resumed_state ".tmp_processed_drives").
  discriminate.
Defined.

(** ** A drive *)

Lemma bind_Ret_inv {A B} (c : M A) (k : A → M B) (s s' : state) (b : B) :
  bind c k s = Ret b s' → ∃ a s1, c s = Ret a s1 ∧ k a s1 = Ret b s'.
Proof.
  unfold bind. destruct (c s) as [a s1|e s1|s1]; [|done|done].
  intros H. by exists a, s1.
Qed.

Lemma append_line_state (file : string) (l : line) (s : state) :
  append_line file l s
  = Ret tt (State (sp s) (astra s)
              (<[file := default [] (fs s !! file) ++ [l]]> (fs s))
              (vstore s) (trace s ++ [AppendLine file l])).
Proof. reflexivity. Qed.

Lemma clear_processed_items_record_absent (file : string) (s : state) :
  ∃ s', clear_processed_items_record file s = Ret tt s'
        ∧ fs s' = delete file (fs s)
        ∧ sp s' = sp s ∧ vstore s' = vstore s
        ∧ ∃ evs, trace s' = trace s ++ evs
                 ∧ Forall (λ e, is_request e = false) evs.
Proof.
  unfold clear_processed_items_record. rewrite bind_get.
  destruct (fs s !! file) as [lines|] eqn:Hfile.
  - eexists. split; [reflexivity|]. cbn [fs sp vstore trace with_fs add_events].
    repeat split. exists [RemoveFile file]. split; [done|].
    by apply Forall_singleton.
  - exists s. split; [done|]. split; [by rewrite delete_id|].
    repeat split. exists []. by rewrite app_nil_r.
Qed.

(** X15. A drive on [drive_white_list] whose ID is already in the
    processed-drives log is not enumerated again (no request is made, the
    counters and the store stay as they are), but the body of the drive loop
    still appends its ID to the processed-drives log once more and removes
    the processed-items log. *)
Theorem processed_drive_is_marked_again (w : World) (fuel : nat) (site_id : string)
    (max_items bulk_item_count : Z) (n_drives drive_idx : nat) (d : drive)
    (c : counters) (s : state) :
  is_drive_white_listed d = true →
  marked s (SharePoint.processed_drives_file (sp s)) (d_id d) →
  ∃ s', process_drive w fuel site_id max_items bulk_item_count n_drives
          drive_idx d c s = Ret c s'
        ∧ sp s' = sp s ∧ vstore s' = vstore s
        ∧ fs s' = delete (SharePoint.processed_items_file (sp s))
                    (<[SharePoint.processed_drives_file (sp s) :=
                         default [] (fs s !! SharePoint.processed_drives_file (sp s))
                         ++ [IdLine (d_id d)]]> (fs s))
        ∧ ∃ evs, trace s' = trace s ++ evs
                 ∧ Forall (λ e, is_request e = false) evs.
Proof.
  intros Hwhite Hmarked. unfold process_drive, is_drive_white_listed in *.
  rewrite Hwhite. unfold get_items_in_item_recursive.
  unfold bind at 1. rewrite enter_folder_unfold.
  rewrite (log_has_marked _ _ _ Hmarked).
  rewrite bind_get. cbn zeta.
  assert (take_if_positive max_items
            (List.filter
               (is_whitelisted_file (SharePoint.white_list_file_extensions (sp s)))
               []) = []) as ->.
  { unfold take_if_positive. cbn. destruct (0 <? max_items)%Z; [|done].
    by destruct (Z.to_nat max_items). }
  cbn [for_enumerate]. rewrite bind_ret, bind_get.
  unfold mark_item_as_processed. unfold bind at 1. rewrite append_line_state.
  match goal with
  | |- context [bind (clear_processed_items_record ?f) _ ?s1] =>
      destruct (clear_processed_items_record_absent f s1)
        as (s' & Hclear & Hfs & Hsp & Hstore & evs & Htr & Hevs)
  end.
  exists s'. unfold bind. rewrite Hclear.
  split; [done|]. split; [done|]. split; [done|]. split; [done|].
  exists (AppendLine (SharePoint.processed_drives_file (sp s)) (IdLine (d_id d))
          :: evs).
  split.
  - rewrite Htr. cbn [trace]. by rewrite <- app_assoc.
  - by constructor.
Qed.

Lemma processed_drive_is_marked_again_witness :
  ∃ s', process_drive
          (example_world [bid_drive root_three_pages] readable store_accepts)
          5 "site" (-1) 10 1 0 (bid_drive root_three_pages) no_progress
          resumed_state
        = Ret no_progress s'
        ∧ sp s' = sp resumed_state ∧ vstore s' = vstore resumed_state
        ∧ fs s' = delete ".tmp_processed_items"
                    (<[".tmp_processed_drives" := [IdLine "D"; IdLine "D"]]>
                       (fs resumed_state))
        ∧ ∃ evs, trace s' = trace resumed_state ++ evs
                 ∧ Forall (λ e, is_request e = false) evs.
Proof.
  apply (processed_drive_is_marked_again
           (example_world [bid_drive root_three_pages] readable store_accepts)
           5 "site" (-1) 10 1 0 (bid_drive root_three_pages) no_progress
           resumed_state).
  - reflexivity.
  - exists [IdLine "D"]. split; [reflexivity|]. apply list_elem_of_here.
Defined.

(** ** Drives that are not on the white list *)

Lemma for_enumerate_skips (w : World) (fuel : nat) (site_id : string)
    (max_items bulk_item_count : Z) (n_drives : nat) (drives : list drive) :
  Forall (λ d, is_drive_white_listed d = false) drives →
  ∀ idx c s,
    for_enumerate
      (process_drive w fuel site_id max_items bulk_item_count n_drives)
      idx drives c s
    = Ret c s.
Proof.
  induction 1 as [|d drives Hd _ IH]; intros idx c s; cbn [for_enumerate]; [done|].
  unfold bind, process_drive. unfold is_drive_white_listed in Hd. rewrite Hd.
  apply IH.
Qed.

Lemma Forall_sorted_by_name (P : drive → Prop) (drives : list drive) :
  Forall P drives → Forall P (sorted_by_name drives).
Proof.
  unfold sorted_by_name. induction 1 as [|d drives Hd _ IH]; cbn [foldr]; [done|].
  rewrite insert_by_name_perm. by constructor.
Qed.

Lemma Forall_take_if_positive {A} (P : A → Prop) (n : Z) (l : list A) :
  Forall P l → Forall P (take_if_positive n l).
Proof.
  intros H. unfold take_if_positive. destruct (0 <? n)%Z; [|done].
  by apply Forall_take.
Qed.

Lemma get_drives_by_site_id_listing (w : World) (site : string) (s s' : state)
    (drives : list drive) :
  get_drives_by_site_id w site s = Ret drives s' →
  drives = [dry_run_drive] ∨ ∃ n, drives = (drives_endpoint w site n).2.
Proof.
  unfold get_drives_by_site_id. intros Hrun.
  apply bind_Ret_inv in Hrun as ([] & s1 & _ & Hrun).
  rewrite bind_get in Hrun.
  destruct (SharePoint.dry_run (sp s1)).
  - injection Hrun as <- _. by left.
  - cbn zeta in Hrun. rewrite bind_request in Hrun.
    destruct (_ =? 200)%Z; [|done].
    injection Hrun as <- _. right. by eexists.
Qed.

Lemma dry_run_drive_not_white_listed : is_drive_white_listed dry_run_drive = false.
Proof. reflexivity. Qed.

(** X16. When no drive of the listing is on [drive_white_list], a run does
    nothing beyond the discovery: however it ends, no file and no batch of
    the store has changed, its only effects are token exchanges, the site
    lookup and the drive listing, and when it returns every counter is
    zero. *)
Theorem run_without_white_listed_drive (w : World) (fuel : nat)
    (site_name : string) (max_drives max_items bulk_item_count : Z) (s : state) :
  (∀ site n, Forall (λ d, is_drive_white_listed d = false)
               (drives_endpoint w site n).2) →
  let o := process_all_sharepoint_files_by_site_name w fuel site_name
             max_drives max_items bulk_item_count s in
  events_only discovery_event s (final_state o)
  ∧ ∀ c s', o = Ret c s' → c = no_progress.
Proof.
  intros Hlisting. cbn zeta.
  destruct (events_only_operations discovery_event s) as (H1 & H2 & H3).
  assert (∀ g, discovery_event (PostToken g)) as Htoken
    by (intros g; left; by exists g).
  unfold process_all_sharepoint_files_by_site_name.
  set (R := events_only discovery_event).
  assert (∀ site_id drives s1 s2,
            get_drives_by_site_id w site_id s1 = Ret drives s2 →
            for_enumerate
              (process_drive w fuel site_id max_items bulk_item_count
                 (length (sorted_by_name (take_if_positive max_drives drives))))
              0 (sorted_by_name (take_if_positive max_drives drives))
              (Locals.Build 0 0 0 []) s2
            = Ret no_progress s2) as Hskip.
  { intros site_id drives s1 s2 Hdrives. apply for_enumerate_skips.
    apply Forall_sorted_by_name, Forall_take_if_positive.
    apply get_drives_by_site_id_listing in Hdrives as [->|[n ->]].
    - constructor; [apply dry_run_drive_not_white_listed|constructor].
    - apply Hlisting. }
  split.
  - apply (kept_bind R).
    { apply (kept_init_auth_token_with_username_password R discovery_event);
        try done. apply events_only_refl. }
    intros _ s1 HR1.
    apply (kept_bind R).
    { apply (kept_get_site_id_by_site_name R discovery_event); try done.
      right. left. by eexists. }
    intros site_id s2 HR2.
    unfold kept, bind.
    pose proof (kept_get_drives_by_site_id R discovery_event s H1 H2 H3 Htoken
                  w site_id s2) as Hkept.
    unfold kept in Hkept.
    destruct (get_drives_by_site_id w site_id s2) as [drives s3|e s3|s3] eqn:Hdrives;
      cbn [final_state] in *.
    + cbn zeta. rewrite (Hskip _ _ _ _ Hdrives). cbn [final_state].
      apply Hkept; [|done]. right. right. by eexists.
    + apply Hkept; [|done]. right. right. by eexists.
    + apply Hkept; [|done]. right. right. by eexists.
  - intros c s' Hrun.
    apply bind_Ret_inv in Hrun as ([] & s1 & _ & Hrun).
    apply bind_Ret_inv in Hrun as (site_id & s2 & _ & Hrun).
    apply bind_Ret_inv in Hrun as (drives & s3 & Hdrives & Hrun).
    cbn zeta in Hrun. rewrite (Hskip _ _ _ _ Hdrives) in Hrun.
    by injection Hrun as <- _.
Qed.

Lemma run_without_white_listed_drive_witness :
  let o := process_all_sharepoint_files_by_site_name
             world_without_white_listed_drive 5 "site name" (-1) (-1) 10
             (initial_state false false) in
  events_only discovery_event (initial_state false false) (final_state o)
  ∧ ∀ c s', o = Ret c s' → c = no_progress.
Proof.
  apply (run_without_white_listed_drive world_without_white_listed_drive 5
           "site name" (-1) (-1) 10 (initial_state false false)).
  intros site n. repeat constructor.
Defined.

(** ** The temporary files after a run *)

Lemma process_drive_final_files (w : World) (fuel : nat) (site_id : string)
    (max_items bulk_item_count : Z) (n_drives drive_idx : nat) (d : drive)
    (c c' : counters) (s0 s s' : state) :
  is_drive_white_listed d = true →
  reachable s0 s →
  process_drive w fuel site_id max_items bulk_item_count n_drives drive_idx d c s
  = Ret c' s' →
  ∃ s2, reachable s0 s2
        ∧ fs s' = delete (SharePoint.processed_items_file (sp s0))
                    (<[SharePoint.processed_drives_file (sp s0) :=
                         default [] (fs s2 !! SharePoint.processed_drives_file (sp s0))
                         ++ [IdLine (d_id d)]]> (fs s2)).
Proof.
  intros Hwhite HR. unfold process_drive, is_drive_white_listed in *.
  rewrite Hwhite. intros Hrun.
  apply bind_Ret_inv in Hrun as (items & s1 & Hitems & Hrun).
  assert (reachable s0 s1) as HR1.
  { pose proof (reachable_get_items w site_id (d_id d) (d_name d) max_items None
                  "/" None (d_root d) s0 s HR) as H.
    unfold kept in H. by rewrite Hitems in H. }
  rewrite bind_get in Hrun. cbn zeta in Hrun.
  apply bind_Ret_inv in Hrun as (c1 & s2 & Hloop & Hrun).
  assert (reachable s0 s2) as HR2.
  { match type of Hloop with ?run = _ => assert (kept reachable s0 run) as H end.
    { apply (kept_for_enumerate reachable); [|done].
      intros idx item acc s3 HR3. by apply reachable_process_item. }
    unfold kept in H. by rewrite Hloop in H. }
  exists s2. split; [done|].
  destruct HR2 as ((_ & _ & Hitemsfile & Hdrivesfile & _) & _).
  rewrite bind_get in Hrun. unfold mark_item_as_processed in Hrun.
  apply bind_Ret_inv in Hrun as ([] & s3 & Hmark & Hrun).
  rewrite append_line_state in Hmark. injection Hmark as <-.
  apply bind_Ret_inv in Hrun as ([] & s4 & Hclear & Hrun).
  injection Hrun as _ <-.
  match type of Hclear with
  | clear_processed_items_record ?f ?s3 = _ =>
      destruct (clear_processed_items_record_absent f s3) as (s5 & Hclear' & Hfs & _)
  end.
  rewrite Hclear in Hclear'. injection Hclear' as <-.
  cbn [fs] in Hfs. by rewrite Hitemsfile, Hdrivesfile in Hfs.
Qed.

Lemma process_drive_reachable (w : World) (fuel : nat) (site_id : string)
    (max_items bulk_item_count : Z) (n_drives drive_idx : nat) (d : drive)
    (c c' : counters) (s0 s s' : state) :
  reachable s0 s →
  process_drive w fuel site_id max_items bulk_item_count n_drives drive_idx d c s
  = Ret c' s' →
  reachable s0 s'.
Proof.
  intros HR Hrun.
  pose proof (reachable_process_drive w fuel site_id max_items bulk_item_count
                n_drives drive_idx d c s0 s HR) as H.
  unfold kept in H. by rewrite Hrun in H.
Qed.

Lemma drive_loop_removes_items_log (w : World) (fuel : nat) (site_id : string)
    (max_items bulk_item_count : Z) (n_drives : nat) (s0 : state)
    (drives : list drive) :
  ∀ idx c s c' s',
    reachable s0 s →
    for_enumerate
      (process_drive w fuel site_id max_items bulk_item_count n_drives)
      idx drives c s = Ret c' s' →
    Exists (λ d, is_drive_white_listed d = true) drives
    ∨ fs s !! SharePoint.processed_items_file (sp s0) = None →
    fs s' !! SharePoint.processed_items_file (sp s0) = None.
Proof.
  induction drives as [|d drives IH]; intros idx c s c' s' HR Hrun Hcase.
  - injection Hrun as _ <-. destruct Hcase as [H|H]; [by inversion H|done].
  - cbn [for_enumerate] in Hrun.
    apply bind_Ret_inv in Hrun as (c1 & s1 & Hdrive & Hrun).
    apply (IH _ _ _ _ _ (process_drive_reachable _ _ _ _ _ _ _ _ _ _ _ _ _ HR Hdrive)
             Hrun).
    destruct (is_drive_white_listed d) eqn:Hwhite.
    + right.
      destruct (process_drive_final_files _ _ _ _ _ _ _ _ _ _ _ _ _ Hwhite HR Hdrive)
        as (s2 & _ & ->).
      by rewrite lookup_delete_eq.
    + unfold process_drive, is_drive_white_listed in *. rewrite Hwhite in Hdrive.
      injection Hdrive as _ <-.
      destruct Hcase as [H|H]; [|by right].
      apply Exists_cons in H as [H|H]; [congruence|by left].
Qed.

(** X17. When the body of the drive loop returns for a drive on
    [drive_white_list], the processed-items log does not exist any more, and
    the drive's ID is in the processed-drives log (the two logs being
    different files). *)
Theorem process_drive_completed (w : World) (fuel : nat) (site_id : string)
    (max_items bulk_item_count : Z) (n_drives drive_idx : nat) (d : drive)
    (c c' : counters) (s s' : state) :
  is_drive_white_listed d = true →
  SharePoint.processed_drives_file (sp s) ≠ SharePoint.processed_items_file (sp s) →
  process_drive w fuel site_id max_items bulk_item_count n_drives drive_idx d c s
  = Ret c' s' →
  fs s' !! SharePoint.processed_items_file (sp s) = None
  ∧ marked s' (SharePoint.processed_drives_file (sp s)) (d_id d).
Proof.
  intros Hwhite Hfiles Hrun.
  destruct (process_drive_final_files _ _ _ _ _ _ _ _ _ _ _ _ _ Hwhite
              (reachable_refl s) Hrun) as (s2 & _ & Hfs).
  split.
  - by rewrite Hfs, lookup_delete_eq.
  - eexists. rewrite Hfs, lookup_delete_ne, lookup_insert_eq by done.
    split; [done|]. apply elem_of_app. right. by apply list_elem_of_here.
Qed.

Lemma process_drive_completed_witness :
  let o := process_drive
             (example_world [bid_drive (single_page [file_item "a" "a.txt"])]
                readable store_accepts)
             5 "site" (-1) 10 1 0 (bid_drive (single_page [file_item "a" "a.txt"]))
             no_progress (initial_state false false) in
  fs (final_state o) !! ".tmp_processed_items" = None
  ∧ marked (final_state o) ".tmp_processed_drives" "D".
Proof.
  cbn zeta.
  apply (process_drive_completed
           (example_world [bid_drive (single_page [file_item "a" "a.txt"])]
              readable store_accepts)
           5 "site" (-1) 10 1 0 (bid_drive (single_page [file_item "a" "a.txt"]))
           no_progress
           (Locals.Build 1 10 1 [])
           (initial_state false false)).
  - reflexivity.
  - discriminate.
  - vm_compute. reflexivity.
Defined.

(** X18. In secure mode [main] saves the temporary files when the run is
    over.  After a run outside dry-run mode that returned and whose drives
    to process held a drive on [drive_white_list], the processed-items log
    does not exist; so [save_temp_files_to_azure_storage] with the default
    list of files, whose first name is that log, deletes the blob of the
    log and then raises [FileNotFoundError]: no blob is uploaded, the
    processed-drives log included. *)
Theorem save_fails_after_completed_run (w : World) (fuel : nat)
    (site_name : string) (max_drives max_items bulk_item_count : Z)
    (c : counters) (s s' : state) (container : string)
    (remote : gmap string (list line)) :
  SharePoint.dry_run (sp s) = false →
  SharePoint.processed_items_file (sp s) = ".tmp_processed_items" →
  (∀ site n, Exists (λ d, is_drive_white_listed d = true)
               (take_if_positive max_drives (drives_endpoint w site n).2)) →
  process_all_sharepoint_files_by_site_name w fuel site_name max_drives
    max_items bulk_item_count s = Ret c s' →
  is_Some (remote !! ".tmp_processed_items") →
  save_temp_files_to_azure_storage (BlobStorageHandler_init container None)
    (Storage (fs s') remote)
  = inl (FileNotFoundError ".tmp_processed_items",
         Storage (fs s') (delete ".tmp_processed_items" remote)).
Proof.
  intros Hlive Hfile Hlisting Hrun [content Hblob].
  destruct (reachable_operations s) as (H1 & H2 & H3).
  unfold process_all_sharepoint_files_by_site_name in Hrun.
  apply bind_Ret_inv in Hrun as ([] & s1 & Hauth & Hrun).
  assert (reachable s s1) as HR1.
  { pose proof (kept_init_auth_token_with_username_password reachable (λ _, True)
                  s H1 H2 H3 (λ _, I) w s (reachable_refl s)) as H.
    unfold kept in H. by rewrite Hauth in H. }
  apply bind_Ret_inv in Hrun as (site_id & s2 & Hsite & Hrun).
  assert (reachable s s2) as HR2.
  { pose proof (kept_get_site_id_by_site_name reachable (λ _, True)
                  s H1 H2 H3 (λ _, I) w site_name s1 I HR1) as H.
    unfold kept in H. by rewrite Hsite in H. }
  apply bind_Ret_inv in Hrun as (drives & s3 & Hdrives & Hrun).
  assert (reachable s s3) as HR3.
  { pose proof (kept_get_drives_by_site_id reachable (λ _, True)
                  s H1 H2 H3 (λ _, I) w site_id s2 I HR2) as H.
    unfold kept in H. by rewrite Hdrives in H. }
  assert (∃ n, drives = (drives_endpoint w site_id n).2) as [n ->].
  { unfold get_drives_by_site_id in Hdrives.
    apply bind_Ret_inv in Hdrives as ([] & s4 & Hcheck & Hdrives).
    assert (reachable s s4) as ((Hdry & _) & _).
    { pose proof (reachable_check_token w s s2 HR2) as H.
      unfold kept in H. by rewrite Hcheck in H. }
    rewrite bind_get, Hdry, Hlive in Hdrives. cbn zeta in Hdrives.
    rewrite bind_request in Hdrives.
    destruct (_ =? 200)%Z; [|done]. injection Hdrives as <- _. by eexists. }
  cbn zeta in Hrun.
  assert (fs s' !! ".tmp_processed_items" = None) as Hgone.
  { rewrite <- Hfile.
    apply (drive_loop_removes_items_log _ _ _ _ _ _ _ _ _ _ _ _ _ HR3 Hrun).
    left. unfold sorted_by_name.
    specialize (Hlisting site_id n). revert Hlisting.
    generalize (take_if_positive max_drives (drives_endpoint w site_id n).2).
    intros l. induction 1 as [d l Hd|d l _ IH]; cbn [foldr].
    - rewrite insert_by_name_perm. by left.
    - rewrite insert_by_name_perm. by right. }
  unfold save_temp_files_to_azure_storage, BlobStorageHandler_init.
  cbn [Blob.temp_files save_temp_files blobs local_files].
  by rewrite Hblob, Hgone.
Qed.

Lemma save_fails_after_completed_run_witness :
  let o := process_all_sharepoint_files_by_site_name
             (example_world [bid_drive (single_page [file_item "a" "a.txt"])]
                readable store_accepts)
             5 "site name" (-1) (-1) 10 (initial_state false false) in
  save_temp_files_to_azure_storage (BlobStorageHandler_init "container" None)
    (Storage (fs (final_state o)) (blobs storage_in_step))
  = inl (FileNotFoundError ".tmp_processed_items",
         Storage (fs (final_state o))
           (delete ".tmp_processed_items" (blobs storage_in_step))).
Proof.
  cbn zeta.
  apply (save_fails_after_completed_run
           (example_world [bid_drive (single_page [file_item "a" "a.txt"])]
              readable store_accepts)
           5 "site name" (-1) (-1) 10 (Locals.Build 1 10 1 [])
           (initial_state false false)).
  - reflexivity.
  - reflexivity.
  - intros site n. left. reflexivity.
  - vm_compute. reflexivity.
  - vm_compute. by eexists.
Defined.

(** ** The processed-drives log after a run *)








Section DrivesLog.
Context (w : World) (s0 : state).
Hypothesis items_file_differs :
  SharePoint.processed_drives_file (sp s0) ≠ SharePoint.processed_items_file (sp s0).
Hypothesis error_file_differs :
  SharePoint.processed_drives_file (sp s0) ≠ SharePoint.error_items_file (sp s0).











End DrivesLog.




(** ** Items that yield no content *)






(** ** Dry-run mode of the SharePoint handler *)

Lemma check_token_dry_run (w : World) (s : state) :
  SharePoint.dry_run (sp s) = true → check_token w s = Ret tt s.
Proof. intros Hdry. unfold check_token. by rewrite bind_get, Hdry. Qed.

(** X21. In dry-run mode no method of the SharePoint handler makes a request
    or changes anything: the token methods return at once; the site lookup
    and the drive listing return their canned answers; an enumeration
    returns the list it was given, extended by the two canned descriptors
    unless the drive or the start folder is in the logs; a download returns
    the simulated content, or [None] for an item in the processed-items log;
    and a whole run returns with every counter at zero, because the one
    canned drive is not on [drive_white_list]. *)
Theorem dry_run_changes_nothing (w : World) (s : state) :
  SharePoint.dry_run (sp s) = true →
  init_auth_token w s = Ret tt s
  ∧ check_token w s = Ret tt s
  ∧ (∀ site_name, get_site_id_by_site_name w site_name s = Ret dry_run_site_id s)
  ∧ (∀ site, get_drives_by_site_id w site s = Ret [dry_run_drive] s)
  ∧ (∀ site_id drive_id drive_name max_items item_id path items_list listing,
       let given := match items_list with Some l => l | None => [] end in
       get_items_in_item_recursive w site_id drive_id drive_name max_items
         item_id path items_list listing s
       = Ret (if log_has s (SharePoint.processed_drives_file (sp s)) (Some drive_id)
                 || log_has s (SharePoint.processed_items_file (sp s)) item_id
              then given else given ++ dry_run_items site_id drive_id) s)
  ∧ (∀ fuel site_id drive_id item_id item_name item_path drive_name is_retry,
       get_item_content w fuel site_id drive_id item_id item_name item_path
         drive_name is_retry s
       = Ret (if log_has s (SharePoint.processed_items_file (sp s)) (Some item_id)
              then None else Some "This is a simulated content for dry run.") s)
  ∧ (∀ fuel site_name max_drives max_items bulk_item_count,
       process_all_sharepoint_files_by_site_name w fuel site_name max_drives
         max_items bulk_item_count s = Ret no_progress s).
Proof.
  intros Hdry.
  assert (check_token w s = Ret tt s) as Hcheck by by apply check_token_dry_run.
  repeat split.
  - unfold init_auth_token, init_auth_token_app_only,
      init_auth_token_with_username_password.
    run_state. by repeat (rewrite Hdry; cbn beta iota).
  - done.
  - intros site_name. unfold get_site_id_by_site_name, bind at 1.
    by rewrite Hcheck, bind_get, Hdry.
  - intros site. unfold get_drives_by_site_id, bind at 1.
    by rewrite Hcheck, bind_get, Hdry.
  - intros site_id drive_id drive_name max_items item_id path items_list listing.
    cbn zeta. unfold get_items_in_item_recursive. rewrite enter_folder_unfold.
    destruct (log_has s _ (Some drive_id)); [done|].
    destruct (log_has s _ item_id); [done|].
    by rewrite Hcheck, Hdry.
  - intros fuel site_id drive_id item_id item_name item_path drive_name is_retry.
    unfold get_item_content, has_been_processed. rewrite bind_get, bind_gets.
    destruct (log_has s _ _); [done|].
    unfold bind at 1. by rewrite Hcheck, bind_get, Hdry.
  - intros fuel site_name max_drives max_items bulk_item_count.
    by apply full_dry_run_completes.
Qed.

Lemma dry_run_changes_nothing_witness :
  get_items_in_item_recursive (example_world [] readable store_accepts)
    "site" "D" "Documents" (-1) None "/" None (single_page [])
    (initial_state true false)
  = Ret (dry_run_items "site" "D") (initial_state true false).
Proof.
  apply (dry_run_changes_nothing (example_world [] readable store_accepts)
           (initial_state true false) eq_refl).
Defined.
